(** * The timed-punishment core of The Cascade Bot

    A shallow embedding of
    - [core/utils.py]: [parse_duration],
    - [core/database.py]: the [DatabaseManager] operations the punishment
      commands use ([get_user], [log_moderation_action], [execute]),
    - [cogs/moderation/punishment_system.py]: [warn], [mute], [kick], [ban]
      and [schedule_unmute],
    followed by the properties of the specification that concern them. *)

From Stdlib Require Import ZArith String Ascii List Lia Bool.
From stdpp Require Import base option gmap.
Import ListNotations.

Local Open Scope string_scope.
Local Open Scope list_scope.
Local Open Scope Z_scope.

(** ** Python values the code relies on *)

Module Py.

(** The exception classes that can occur in the modelled code.  All of them
    derive from [Exception]; [Forbidden] derives from [HTTPException]. *)
Inductive Exn :=
| ValueError | OverflowError | NameError | TypeError | RuntimeError
| Forbidden | HTTPException | PostgresError | DataError.

Definition Exn_eqb (a b : Exn) : bool :=
  match a, b with
  | ValueError, ValueError | OverflowError, OverflowError
  | NameError, NameError | TypeError, TypeError
  | RuntimeError, RuntimeError | Forbidden, Forbidden
  | HTTPException, HTTPException | PostgresError, PostgresError
  | DataError, DataError => true
  | _, _ => false
  end.

(** The result of evaluating an expression: a value, or a raised exception. *)
Inductive Res (A : Type) :=
| Return (a : A)
| Raise (e : Exn).
Arguments Return {A} a.
Arguments Raise {A} e.

Definition bind {A B} (r : Res A) (k : A -> Res B) : Res B :=
  match r with
  | Return a => k a
  | Raise e => Raise e
  end.

(** [try: body except cls: handler] for a single exception class. *)
Definition try_except {A} (body : Res A) (cls : Exn) (handler : Res A) : Res A :=
  match body with
  | Return a => Return a
  | Raise e => if Exn_eqb e cls then handler else Raise e
  end.

(** *** [str] methods, on ASCII text *)

Definition code (c : ascii) : N := N_of_ascii c.

(** The pattern's [\d] and the digits [int] reads, on the ASCII range. *)
Definition is_digit (c : ascii) : bool :=
  (48 <=? code c)%N && (code c <=? 57)%N.

(** [str.isspace] on the ASCII range: TAB, LF, VT, FF, CR, the four
    separators FS, GS, RS, US, and SPACE. *)
Definition is_space (c : ascii) : bool :=
  ((9 <=? code c)%N && (code c <=? 13)%N)
  || ((28 <=? code c)%N && (code c <=? 32)%N).

Definition not_space (c : ascii) : bool := negb (is_space c).

Definition lower_char (c : ascii) : ascii :=
  if (65 <=? code c)%N && (code c <=? 90)%N
  then ascii_of_N (code c + 32)
  else c.

Fixpoint lower (s : string) : string :=
  match s with
  | EmptyString => EmptyString
  | String c r => String (lower_char c) (lower r)
  end.

Fixpoint lstrip (s : string) : string :=
  match s with
  | EmptyString => EmptyString
  | String c r => if is_space c then lstrip r else s
  end.

Fixpoint rstrip (s : string) : string :=
  match s with
  | EmptyString => EmptyString
  | String c r =>
      match rstrip r with
      | EmptyString => if is_space c then EmptyString else String c EmptyString
      | r' => String c r'
      end
  end.

Definition strip (s : string) : string := rstrip (lstrip s).

Fixpoint all_chars (p : ascii -> bool) (s : string) : bool :=
  match s with
  | EmptyString => true
  | String c r => p c && all_chars p r
  end.

(** [needle in haystack] *)
Fixpoint contains (needle haystack : string) : bool :=
  String.prefix needle haystack
  || match haystack with
     | EmptyString => false
     | String _ r => contains needle r
     end.

(** *** [int(str)] on a string of decimal digits *)

Fixpoint int_of_digits (acc : Z) (s : string) : Z :=
  match s with
  | EmptyString => acc
  | String c r => int_of_digits (10 * acc + (Z.of_N (code c) - 48)) r
  end.

(** [int] of a digit string.  [max_str_digits] is the interpreter's
    [sys.get_int_max_str_digits()]: [0] when the limit is disabled or the
    interpreter predates it, [4300] by default since CPython 3.11; a longer
    digit string raises [ValueError]. *)
Definition int (max_str_digits : nat) (s : string) : Res Z :=
  if (max_str_digits =? 0)%nat || (String.length s <=? max_str_digits)%nat
  then Return (int_of_digits 0 s)
  else Raise ValueError.

(** *** [datetime.timedelta] *)

Record timedelta := { days : Z; seconds : Z; microseconds : Z }.

Definition max_timedelta_days : Z := 999999999.

(** [timedelta(days=.., hours=.., minutes=.., seconds=..)] on integers:
    the arguments are summed exactly and normalised to days and a number of
    seconds in [0, 86400); more than 999999999 days (either sign) raises
    [OverflowError]. *)
Definition timedelta_new (d h m s : Z) : Res timedelta :=
  let total := d * 86400 + h * 3600 + m * 60 + s in
  let nd := total / 86400 in
  if Z.abs nd >? max_timedelta_days
  then Raise OverflowError
  else Return {| days := nd; seconds := total mod 86400; microseconds := 0 |}.

(** [td.total_seconds()], in whole seconds.  Every value built by
    [timedelta_new] has no microseconds and fewer than 2^53 seconds, so the
    float Python returns is this integer exactly. *)
Definition total_seconds (td : timedelta) : Z :=
  days td * 86400 + seconds td.

(** [bool(td)]: a zero duration is falsy. *)
Definition timedelta_truthy (td : timedelta) : bool :=
  negb ((days td =? 0) && (seconds td =? 0) && (microseconds td =? 0)).

End Py.

Import Py.

(** ** [core/utils.py] *)

Module Utils.

(** One optional group [(?:(\d+)X)?] of the pattern, tried at the head of
    [s]: the longest run of digits must be non-empty and followed by the
    unit letter; otherwise the group is skipped and nothing is consumed. *)
Fixpoint span_digits (s : string) : string * string :=
  match s with
  | EmptyString => (EmptyString, EmptyString)
  | String c r =>
      if is_digit c
      then let '(ds, rest) := span_digits r in (String c ds, rest)
      else (EmptyString, s)
  end.

Definition match_group (unit : ascii) (s : string) : option string * string :=
  match span_digits s with
  | (String c ds, String u rest) =>
      if Ascii.eqb u unit then (Some (String c ds), rest) else (None, s)
  | _ => (None, s)
  end.

(** The captured groups of a match object. *)
Record Match := {
  group1 : option string; group2 : option string;
  group3 : option string; group4 : option string }.

(** [re.match(r'(?:(\d+)d)?(?:(\d+)h)?(?:(\d+)m)?(?:(\d+)s)?', s)]: anchored
    at the start only.  Every group is optional, so backtracking is never
    needed and a match object is always produced. *)
Definition re_match_pattern (s : string) : option Match :=
  let '(g1, s1) := match_group "d" s in
  let '(g2, s2) := match_group "h" s1 in
  let '(g3, s3) := match_group "m" s2 in
  let '(g4, _) := match_group "s" s3 in
  Some {| group1 := g1; group2 := g2; group3 := g3; group4 := g4 |}.

(** [match.groups(default=...)] *)
Definition groups (default : string) (m : Match) : string * string * string * string :=
  let get (g : option string) := match g with Some x => x | None => default end in
  (get (group1 m), get (group2 m), get (group3 m), get (group4 m)).

Section ParseDuration.
Variable max_str_digits : nat.

Definition parse_duration (duration_str : string) : Res (option timedelta) :=
  match re_match_pattern (strip (lower duration_str)) with
  | None => Return None
  | Some m =>
      let '(days, hours, minutes, seconds) := groups "0" m in
      try_except
        (bind (int max_str_digits days) (fun d =>
         bind (int max_str_digits hours) (fun h =>
         bind (int max_str_digits minutes) (fun mi =>
         bind (int max_str_digits seconds) (fun s =>
         bind (timedelta_new d h mi s) (fun td =>
         Return (Some td)))))))
        ValueError
        (Return None)
  end.
End ParseDuration.

End Utils.

Import Utils.

(** ** Effects

    A command handler talks to the chat platform, to the store and to the
    logger.  Each such call is recorded as an [Event], in the order the handler
    makes it; the store's contents are threaded as state; an exception either
    reaches an [except] clause or leaves the handler. *)

Module Effects.

Record Role := { role_id : Z; role_name : string; role_rank : Z }.

Record Member := { id : Z; top_role : Role }.

Record Guild := {
  guild_id : Z;
  owner : option Member;
  roles : list Role;
  text_channels : list Z;
  voice_channels : list Z;
  members : list Member }.

(** The SQL statements the punishment commands send to the pool. *)
Inductive Stmt :=
| InsertModerationLog (guild user moderator : Z) (action_type : string)
    (reason : option string) (duration : option Z)
| SelectUser (user : Z)
| UpdateWarnings (new_warnings : Z) (user : Z).

(** Direct-message embeds and replies in the invoking channel. *)
Inductive Notice := WarnNotice | MuteNotice | KickNotice | BanNotice | UnmuteNotice.

Inductive Reply :=
| Text (s : string)
| CreatedMutedRole (role : Z)
| ResponseEmbed (action : string) (user moderator : Z) (reason : string)
    (infraction_id : option Z).

Inductive Event :=
| CtxSend (r : Reply)
| MemberSend (user : Z) (n : Notice)
| AddRoles (user role : Z)
| RemoveRoles (user role : Z)
| MemberKick (user : Z)
| MemberBan (user : Z)
| CreateRole (guild : Z) (name : string)
| SetPermissions (channel role : Z)
| PoolFetchrow (q : Stmt)
| PoolExecute (q : Stmt)
| LoggerInfo (msg : string)
| LoggerError (msg : string) (e : Exn)
| Sleep (secs : Z).

(** What the outside world answers.  [None] means the call returns
    normally, [Some e] that it raises [e].  Replies in the invoking channel
    ([ctx.send]) and logger calls are the handler's outputs: the model
    records them and lets them return. *)
Record World := {
  max_str_digits : nat;
  member_send : Z -> option Exn;
  add_roles : option Exn;
  remove_roles : option Exn;
  member_kick : option Exn;
  member_ban : option Exn;
  create_role : Res Role;
  set_permissions : Z -> option Exn;
  pg_failure : Stmt -> option Exn }.

(** The store: the [users] and [moderation_logs] tables, the sequence that
    numbers the log rows, and whether the pool is connected. *)
Record UserRow := { warnings : option Z }.

Record LogRow := {
  log_id : Z;
  log_guild : Z;
  log_user : Z;
  log_moderator : Z;
  log_action_type : string;
  log_reason : option string;
  log_duration : option Z }.

Record Db := {
  pool : bool;
  users : gmap Z UserRow;
  moderation_logs : list LogRow;
  next_log_id : Z }.

Definition M (A : Type) : Type := Db -> list Event * Db * Res A.

Definition ret {A} (a : A) : M A := fun db => ([], db, Return a).

Definition raise {A} (e : Exn) : M A := fun db => ([], db, Raise e).

Definition bindM {A B} (m : M A) (k : A -> M B) : M B :=
  fun db =>
    match m db with
    | (t1, db1, Return a) =>
        let '(t2, db2, r) := k a db1 in (t1 ++ t2, db2, r)
    | (t1, db1, Raise e) => (t1, db1, Raise e)
    end.

Definition emit (e : Event) : M unit := fun db => ([e], db, Return tt).

Definition get_db : M Db := fun db => ([], db, Return db).

Definition put_db (db' : Db) : M unit := fun _ => ([], db', Return tt).

(** [try: body except ...: handler]; [handler e = None] when no clause
    matches [e], which then keeps propagating. *)
Definition try_ {A} (body : M A) (handler : Exn -> option (M A)) : M A :=
  fun db =>
    match body db with
    | (t1, db1, Return a) => (t1, db1, Return a)
    | (t1, db1, Raise e) =>
        match handler e with
        | Some h => let '(t2, db2, r) := h db1 in (t1 ++ t2, db2, r)
        | None => (t1, db1, Raise e)
        end
    end.

(** [except cls:] and [except Exception:] *)
Definition except_ {A} (cls : Exn) (h : M A) : Exn -> option (M A) :=
  fun e => if Exn_eqb e cls then Some h else None.

Definition except_Exception {A} (h : Exn -> M A) : Exn -> option (M A) :=
  fun e => Some (h e).

(** An external call whose outcome the world decides. *)
Definition call (e : Event) (outcome : option Exn) : M unit :=
  fun db =>
    match outcome with
    | None => ([e], db, Return tt)
    | Some x => ([e], db, Raise x)
    end.

Definition lift {A} (r : Res A) : M A := fun db => ([], db, r).

Definition trace_of {A} (x : list Event * Db * Res A) : list Event := fst (fst x).
Definition db_of {A} (x : list Event * Db * Res A) : Db := snd (fst x).
Definition result_of {A} (x : list Event * Db * Res A) : Res A := snd x.

End Effects.

Import Effects.

Declare Scope py_scope.
Delimit Scope py_scope with py.
Notation "x <- c ;; k" := (bindM c (fun x => k))
  (at level 100, c at next level, right associativity) : py_scope.
Notation "c ;; k" := (bindM c (fun _ => k))
  (at level 100, right associativity) : py_scope.
Local Open Scope py_scope.

(** ** [core/database.py] *)

Module Database.

Section DatabaseManager.
Variable w : World.

Definition int32 (v : Z) : bool := (-2147483648 <=? v) && (v <=? 2147483647).

(** A row returned by [pool.fetchrow]. *)
Inductive Record_ :=
| UserRecord (row : UserRow)
| IdRecord (id : Z).

(** [self.pool.fetchrow(query, *args)] on a connected pool: the server
    either fails, or runs the statement.  [INTEGER] arguments outside the
    32-bit range are refused by the driver with [DataError]. *)
Definition pool_fetchrow (q : Stmt) : M (option Record_) :=
  emit (PoolFetchrow q) ;;
  match pg_failure w q with
  | Some e => raise e
  | None =>
      db <- get_db ;;
      match q with
      | SelectUser user => ret (UserRecord <$> (users db !! user))
      | InsertModerationLog g u m a r d =>
          if match d with Some v => int32 v | None => true end
          then
            let row := {| log_id := next_log_id db; log_guild := g;
                          log_user := u; log_moderator := m;
                          log_action_type := a; log_reason := r;
                          log_duration := d |} in
            put_db {| pool := pool db; users := users db;
                      moderation_logs := moderation_logs db ++ [row];
                      next_log_id := next_log_id db + 1 |} ;;
            ret (Some (IdRecord (next_log_id db)))
          else raise DataError
      | UpdateWarnings _ _ => ret None
      end
  end.

(** [self.pool.execute(query, *args)] *)
Definition pool_execute (q : Stmt) : M unit :=
  emit (PoolExecute q) ;;
  match pg_failure w q with
  | Some e => raise e
  | None =>
      db <- get_db ;;
      match q with
      | UpdateWarnings v user =>
          if int32 v
          then put_db {| pool := pool db;
                         users := alter (fun _ => {| warnings := Some v |}) user (users db);
                         moderation_logs := moderation_logs db;
                         next_log_id := next_log_id db |}
          else raise DataError
      | _ => ret tt
      end
  end.

Definition execute (q : Stmt) : M unit :=
  db <- get_db ;;
  if negb (pool db) then raise RuntimeError
  else
    try_ (pool_execute q)
      (except_Exception (fun e =>
         emit (LoggerError "Database execute error" e) ;; raise e)).

Definition fetchrow (q : Stmt) : M (option Record_) :=
  db <- get_db ;;
  if negb (pool db) then raise RuntimeError
  else
    try_ (pool_fetchrow q)
      (except_Exception (fun e =>
         emit (LoggerError "Database fetchrow error" e) ;; raise e)).

Definition get_user (user_id : Z) : M (option UserRow) :=
  record <- fetchrow (SelectUser user_id) ;;
  ret match record with
      | Some (UserRecord row) => Some row
      | _ => None
      end.

Definition log_moderation_action (guild_id user_id moderator_id : Z)
    (action_type : string) (reason : option string) (duration : option Z)
  : M (option Z) :=
  record <- fetchrow (InsertModerationLog guild_id user_id moderator_id
                        action_type reason duration) ;;
  ret match record with
      | Some (IdRecord id) => Some id
      | _ => None
      end.

End DatabaseManager.

End Database.

Import Database.

(** ** [cogs/moderation/punishment_system.py] *)

Module PunishmentSystem.

Record Bot := { user_id : Z; guilds : list Guild }.

Record Context := { author : Member; guild : Guild }.

(** Modelled from the spec: [discord.Role] and its ordering belong to the
    platform library, not to the repository; the glossary's hierarchy rank,
    a total order on a member's highest role, stands for [top_role <= top_role]. *)
Definition role_le (a b : Role) : bool := role_rank a <=? role_rank b.

(** [a != b] on members compares identifiers; a guild whose owner is not
    resolved has [owner = None], which differs from every member. *)
Definition member_ne (a : Member) (b : option Member) : bool :=
  match b with
  | Some o => negb (id a =? id o)
  | None => true
  end.

(** The names bound at module level: the imports (lines 8-13), the class
    and [setup].  [asyncio] is not among them, and is not a builtin. *)
Definition module_globals : list string :=
  ["discord"; "commands"; "logging"; "datetime"; "timedelta";
   "is_mod_or_admin"; "create_embed"; "parse_duration"; "BotLogger";
   "PunishmentSystem"; "setup"].

Definition load_global (name : string) : M unit :=
  if existsb (String.eqb name) module_globals then ret tt else raise NameError.

(** [user_data.get('warnings', 0) + 1]: the column is always present in the
    row; a NULL value is [None], and [None + 1] raises [TypeError]. *)
Definition add_one (v : option Z) : M Z :=
  match v with
  | Some n => ret (n + 1)
  | None => raise TypeError
  end.

Definition guild_get_member (g : Guild) (user : Z) : option Member :=
  find (fun m => id m =? user) (members g).

Definition utils_get_role (rs : list Role) (role : Z) : option Role :=
  find (fun r => role_id r =? role) rs.

(** The first role whose lower-cased name contains "mute". *)
Definition find_mute_role (rs : list Role) : option Role :=
  find (fun r => contains "mute" (lower (role_name r))
                 || contains "muted" (lower (role_name r))) rs.

Section Cog.
Variable w : World.
Variable bot : Bot.

Definition ctx_send (r : Reply) : M unit := emit (CtxSend r).

(** [try: await member.send(embed=...) except discord.Forbidden: pass] *)
Definition try_member_send (member : Member) (n : Notice) : M unit :=
  try_ (call (MemberSend (id member) n) (member_send w (id member)))
    (except_ Forbidden (ret tt)).

(** *** warn *)

Definition warn_execute (ctx : Context) (member : Member) (reason : string) : M unit :=
  try_
    (try_member_send member WarnNotice ;;
     infraction_id <- log_moderation_action w (guild_id (guild ctx)) (id member)
                        (id (author ctx)) "warn" (Some reason) None ;;
     user_data <- get_user w (id member) ;;
     match user_data with
     | Some row =>
         new_warnings <- add_one (warnings row) ;;
         execute w (UpdateWarnings new_warnings (id member))
     | None => ret tt
     end ;;
     ctx_send (ResponseEmbed "warn" (id member) (id (author ctx)) reason infraction_id) ;;
     emit (LoggerInfo "Moderation action 'warn'"))
    (except_Exception (fun e =>
       emit (LoggerError "Error warning user" e) ;;
       ctx_send (Text "An error occurred while trying to warn the user."))).

Definition warn (ctx : Context) (member : Member) (reason : string) : M unit :=
  if id member =? id (author ctx) then
    ctx_send (Text "You cannot warn yourself.")
  else if id member =? user_id bot then
    ctx_send (Text "I cannot warn myself.")
  else if role_le (top_role (author ctx)) (top_role member)
          && member_ne (author ctx) (owner (guild ctx)) then
    ctx_send (Text "You cannot warn someone with a higher or equal role.")
  else warn_execute ctx member reason.

(** *** schedule_unmute *)

Fixpoint unmute_in (gs : list Guild) (user role duration_seconds : Z) : M unit :=
  match gs with
  | [] => ret tt
  | g :: rest =>
      match guild_get_member g user with
      | Some member =>
          match utils_get_role (roles g) role with
          | Some r =>
              done <- try_
                (call (RemoveRoles (id member) (role_id r)) (remove_roles w) ;;
                 try_member_send member UnmuteNotice ;;
                 emit (LoggerInfo "Auto-unmuted user") ;;
                 ret true)
                (except_Exception (fun e =>
                   emit (LoggerError "Error auto-unmuting user" e) ;;
                   ret false)) ;;
              if done : bool then ret tt
              else unmute_in rest user role duration_seconds
          | None => unmute_in rest user role duration_seconds
          end
      | None => unmute_in rest user role duration_seconds
      end
  end.

Definition schedule_unmute (user role duration_seconds : Z) : M unit :=
  load_global "asyncio" ;;
  emit (Sleep duration_seconds) ;;
  unmute_in (guilds bot) user role duration_seconds.

(** *** mute *)

Fixpoint set_permissions_all (channels : list Z) (role : Z) : M unit :=
  match channels with
  | [] => ret tt
  | c :: rest =>
      call (SetPermissions c role) (set_permissions w c) ;;
      set_permissions_all rest role
  end.

(** Lines 159-190: create the "Muted" role when none was found.  [None]
    stands for the early [return] of the two [except] clauses. *)
Definition create_mute_role (ctx : Context) : M (option Role) :=
  try_
    (emit (CreateRole (guild_id (guild ctx)) "Muted") ;;
     mute_role <- lift (create_role w) ;;
     set_permissions_all (text_channels (guild ctx)) (role_id mute_role) ;;
     set_permissions_all (voice_channels (guild ctx)) (role_id mute_role) ;;
     ctx_send (CreatedMutedRole (role_id mute_role)) ;;
     ret (Some mute_role))
    (fun e =>
       match e with
       | Forbidden =>
           Some (ctx_send (Text "I don't have permission to create a mute role.") ;;
                 ret None)
       | _ =>
           Some (emit (LoggerError "Error creating mute role" e) ;;
                 ctx_send (Text "Error creating mute role.") ;;
                 ret None)
       end).

(** Lines 192-253: the [try] block. *)
Definition mute_execute (ctx : Context) (member : Member) (duration reason : string)
    (parsed_duration : timedelta) (mute_role : Role) : M unit :=
  try_
    (call (AddRoles (id member) (role_id mute_role)) (add_roles w) ;;
     try_member_send member MuteNotice ;;
     infraction_id <- log_moderation_action w (guild_id (guild ctx)) (id member)
                        (id (author ctx)) "mute" (Some reason)
                        (Some (total_seconds parsed_duration)) ;;
     ctx_send (ResponseEmbed "mute" (id member) (id (author ctx)) reason infraction_id) ;;
     emit (LoggerInfo "Moderation action 'mute'") ;;
     schedule_unmute (id member) (role_id mute_role) (total_seconds parsed_duration))
    (fun e =>
       match e with
       | Forbidden =>
           Some (ctx_send (Text "I don't have permission to mute this user."))
       | _ =>
           Some (emit (LoggerError "Error muting user" e) ;;
                 ctx_send (Text "An error occurred while trying to mute the user."))
       end).

(** Lines 152-253: find or create the mute role, then run the [try] block. *)
Definition mute_apply (ctx : Context) (member : Member) (duration reason : string)
    (parsed_duration : timedelta) : M unit :=
  match find_mute_role (roles (guild ctx)) with
  | Some mute_role => mute_execute ctx member duration reason parsed_duration mute_role
  | None =>
      created <- create_mute_role ctx ;;
      match created with
      | Some mute_role => mute_execute ctx member duration reason parsed_duration mute_role
      | None => ret tt
      end
  end.

Definition max_mute_seconds : Z := 2419200.

(** Lines 142-150: parse the duration and bound it; [parse_duration] is
    called outside any [try], so what it raises leaves the handler. *)
Definition mute_validate (ctx : Context) (member : Member) (duration reason : string)
  : M unit :=
  parsed_duration <- lift (parse_duration (max_str_digits w) duration) ;;
  match parsed_duration with
  | Some td =>
      if negb (timedelta_truthy td) then
        ctx_send (Text "Invalid duration format. Use formats like: 1h, 30m, 1d, 2h30m")
      else if total_seconds td >? max_mute_seconds then
        ctx_send (Text "Maximum mute duration is 28 days.")
      else mute_apply ctx member duration reason td
  | None =>
      ctx_send (Text "Invalid duration format. Use formats like: 1h, 30m, 1d, 2h30m")
  end.

Definition mute (ctx : Context) (member : Member) (duration reason : string) : M unit :=
  if id member =? id (author ctx) then
    ctx_send (Text "You cannot mute yourself.")
  else if id member =? user_id bot then
    ctx_send (Text "I cannot mute myself.")
  else if role_le (top_role (author ctx)) (top_role member)
          && member_ne (author ctx) (owner (guild ctx)) then
    ctx_send (Text "You cannot mute someone with a higher or equal role.")
  else mute_validate ctx member duration reason.

(** *** kick *)

Definition kick_execute (ctx : Context) (member : Member) (reason : string) : M unit :=
  try_
    (try_member_send member KickNotice ;;
     call (MemberKick (id member)) (member_kick w) ;;
     infraction_id <- log_moderation_action w (guild_id (guild ctx)) (id member)
                        (id (author ctx)) "kick" (Some reason) None ;;
     ctx_send (ResponseEmbed "kick" (id member) (id (author ctx)) reason infraction_id) ;;
     emit (LoggerInfo "Moderation action 'kick'"))
    (fun e =>
       match e with
       | Forbidden =>
           Some (ctx_send (Text "I don't have permission to kick this user."))
       | _ =>
           Some (emit (LoggerError "Error kicking user" e) ;;
                 ctx_send (Text "An error occurred while trying to kick the user."))
       end).

Definition kick (ctx : Context) (member : Member) (reason : string) : M unit :=
  if id member =? id (author ctx) then
    ctx_send (Text "You cannot kick yourself.")
  else if id member =? user_id bot then
    ctx_send (Text "I cannot kick myself.")
  else if role_le (top_role (author ctx)) (top_role member)
          && member_ne (author ctx) (owner (guild ctx)) then
    ctx_send (Text "You cannot kick someone with a higher or equal role.")
  else kick_execute ctx member reason.

(** *** ban *)

Definition ban_execute (ctx : Context) (member : Member) (reason : string) : M unit :=
  try_
    (try_member_send member BanNotice ;;
     call (MemberBan (id member)) (member_ban w) ;;
     infraction_id <- log_moderation_action w (guild_id (guild ctx)) (id member)
                        (id (author ctx)) "ban" (Some reason) None ;;
     ctx_send (ResponseEmbed "ban" (id member) (id (author ctx)) reason infraction_id) ;;
     emit (LoggerInfo "Moderation action 'ban'"))
    (fun e =>
       match e with
       | Forbidden =>
           Some (ctx_send (Text "I don't have permission to ban this user."))
       | _ =>
           Some (emit (LoggerError "Error banning user" e) ;;
                 ctx_send (Text "An error occurred while trying to ban the user."))
       end).

Definition ban (ctx : Context) (member : Member) (reason : string) : M unit :=
  if id member =? id (author ctx) then
    ctx_send (Text "You cannot ban yourself.")
  else if id member =? user_id bot then
    ctx_send (Text "I cannot ban myself.")
  else if role_le (top_role (author ctx)) (top_role member)
          && member_ne (author ctx) (owner (guild ctx)) then
    ctx_send (Text "You cannot ban someone with a higher or equal role.")
  else ban_execute ctx member reason.

End Cog.

End PunishmentSystem.

Import PunishmentSystem.

(** ** A concrete guild, used to run the handlers *)

Module Scenario.

Definition everyone : Role := {| role_id := 100; role_name := "@everyone"; role_rank := 0 |}.
Definition regular : Role := {| role_id := 105; role_name := "Regular"; role_rank := 5 |}.
Definition moderator : Role := {| role_id := 106; role_name := "Moderator"; role_rank := 6 |}.
Definition muted : Role := {| role_id := 101; role_name := "Muted"; role_rank := 1 |}.

Definition alice : Member := {| id := 1; top_role := moderator |}.
Definition bob : Member := {| id := 42; top_role := regular |}.
Definition carol : Member := {| id := 7; top_role := regular |}.
Definition the_bot : Member := {| id := 999; top_role := moderator |}.
Definition founder : Member := {| id := 2; top_role := regular |}.

Definition server : Guild :=
  {| guild_id := 100; owner := Some founder;
     roles := [everyone; muted; regular; moderator];
     text_channels := [11; 12]; voice_channels := [21];
     members := [alice; bob; carol; the_bot; founder] |}.

Definition cascade : Bot := {| user_id := 999; guilds := [server] |}.

Definition ctx_of (a : Member) : Context := {| author := a; guild := server |}.

(** Every external call succeeds. *)
Definition calm : World :=
  {| max_str_digits := 4300;
     member_send := fun _ => None;
     add_roles := None; remove_roles := None;
     member_kick := None; member_ban := None;
     create_role := Return muted;
     set_permissions := fun _ => None;
     pg_failure := fun _ => None |}.

(** The platform refuses the kick; everything else succeeds. *)
Definition kick_refused : World :=
  {| max_str_digits := 4300;
     member_send := fun _ => None;
     add_roles := None; remove_roles := None;
     member_kick := Some Forbidden; member_ban := None;
     create_role := Return muted;
     set_permissions := fun _ => None;
     pg_failure := fun _ => None |}.

(** Direct messages fail with an HTTP error; everything else succeeds. *)
Definition dm_broken : World :=
  {| max_str_digits := 4300;
     member_send := fun _ => Some HTTPException;
     add_roles := None; remove_roles := None;
     member_kick := None; member_ban := None;
     create_role := Return muted;
     set_permissions := fun _ => None;
     pg_failure := fun _ => None |}.

(** A guild whose role list has a "Commuters" role ahead of "Muted". *)
Definition commuters : Role :=
  {| role_id := 107; role_name := "Commuters"; role_rank := 2 |}.

Definition suburb : Guild :=
  {| guild_id := 200; owner := Some founder;
     roles := [everyone; commuters; muted; regular; moderator];
     text_channels := [11; 12]; voice_channels := [21];
     members := [alice; bob] |}.

(** A guild with no role whose name contains "mute". *)
Definition bare : Guild :=
  {| guild_id := 300; owner := Some founder;
     roles := [everyone; regular; moderator];
     text_channels := [11; 12]; voice_channels := [21];
     members := [alice; bob] |}.

(** The platform refuses the permission override on channel 12. *)
Definition override_refused : World :=
  {| max_str_digits := 4300;
     member_send := fun _ => None;
     add_roles := None; remove_roles := None;
     member_kick := None; member_ban := None;
     create_role := Return muted;
     set_permissions := fun c => if c =? 12 then Some Forbidden else None;
     pg_failure := fun _ => None |}.

(** The store answers every [SELECT] on [users] with an error. *)
Definition select_fails : World :=
  {| max_str_digits := 4300;
     member_send := fun _ => None;
     add_roles := None; remove_roles := None;
     member_kick := None; member_ban := None;
     create_role := Return muted;
     set_permissions := fun _ => None;
     pg_failure := fun q => match q with
                            | SelectUser _ => Some PostgresError
                            | _ => None
                            end |}.

(** A store in which user 7 has reached the largest [INTEGER]. *)
Definition carol_maxed : Db :=
  {| pool := true; users := {[ 7 := {| warnings := Some 2147483647 |} ]};
     moderation_logs := []; next_log_id := 1 |}.

(** A store in which user 7 already has a record, with no warning yet. *)
Definition carol_known : Db :=
  {| pool := true; users := {[ 7 := {| warnings := Some 0 |} ]};
     moderation_logs := []; next_log_id := 1 |}.

Definition empty_db : Db :=
  {| pool := true; users := ∅; moderation_logs := []; next_log_id := 1 |}.

End Scenario.

Import Scenario.

(** ** The duration grammar of the specification *)

Module DurationGrammar.

(** One [<integer><unit>] pair as typed: the digits and the unit letter
    (either case); [None] when the pair is omitted. *)
Definition Group : Type := option (string * ascii).

Definition is_Some_b (g : Group) : bool :=
  match g with Some _ => true | None => false end.

Definition upper_of (u : ascii) : ascii := ascii_of_N (code u - 32).

Definition group_ok (u : ascii) (g : Group) : bool :=
  match g with
  | None => true
  | Some (ds, c) =>
      negb (String.eqb ds "") && all_chars is_digit ds
      && (Ascii.eqb c u || Ascii.eqb c (upper_of u))
  end.

Definition group_text (g : Group) : string :=
  match g with
  | None => ""
  | Some (ds, c) => (ds ++ String c "")%string
  end.

Definition group_value (g : Group) : Z :=
  match g with
  | None => 0
  | Some (ds, _) => int_of_digits 0 ds
  end.

(** The digit string is one [int] converts under the interpreter's limit. *)
Definition group_within (limit : nat) (g : Group) : bool :=
  match g with
  | None => true
  | Some (ds, _) => (limit =? 0)%nat || (String.length ds <=? limit)%nat
  end.

Definition duration_text (ws1 : string) (gd gh gm gs : Group) (ws2 : string) : string :=
  (ws1 ++ group_text gd ++ group_text gh ++ group_text gm ++ group_text gs ++ ws2)%string.

(** At least one of the four pairs is written. *)
Definition any_group (gd gh gm gs : Group) : bool :=
  is_Some_b gd || is_Some_b gh || is_Some_b gm || is_Some_b gs.

Definition duration_value (gd gh gm gs : Group) : Z :=
  86400 * group_value gd + 3600 * group_value gh + 60 * group_value gm + group_value gs.

Definition well_formed (limit : nat) (ws1 : string) (gd gh gm gs : Group) (ws2 : string) : bool :=
  all_chars is_space ws1 && all_chars is_space ws2
  && group_ok "d" gd && group_ok "h" gh && group_ok "m" gm && group_ok "s" gs
  && group_within limit gd && group_within limit gh
  && group_within limit gm && group_within limit gs.

(** The text of a pair once lower-cased, and the text of the pairs that
    follow it. *)
Definition canonical (u : ascii) (g : Group) : string :=
  match g with
  | None => ""
  | Some (ds, _) => (ds ++ String u "")%string
  end.

Fixpoint canonical_all (l : list (ascii * Group)) : string :=
  match l with
  | [] => ""
  | (u, g) :: rest => (canonical u g ++ canonical_all rest)%string
  end.

Definition digits_of (g : Group) : option string := fst <$> g.

(** A unit letter: lower case, not a digit, not white space. *)
Definition unit_letter (u : ascii) : Prop :=
  lower_char u = u /\ lower_char (upper_of u) = u
  /\ is_digit u = false /\ is_space u = false.

(** The pairs after the one being tried: each has its own unit letter. *)
Definition later_groups (u : ascii) (l : list (ascii * Group)) : Prop :=
  Forall (fun ug => fst ug <> u /\ is_digit (fst ug) = false
                    /\ group_ok (fst ug) (snd ug) = true) l.

End DurationGrammar.

Import DurationGrammar.

(** ** The punishment commands as the specification names them *)

Module Contract.

Inductive Command := Warn | Mute (duration : string) | Kick | Ban.

Definition verb (c : Command) : string :=
  match c with Warn => "warn" | Mute _ => "mute" | Kick => "kick" | Ban => "ban" end.

Definition gerund (c : Command) : string :=
  match c with
  | Warn => "warning" | Mute _ => "muting" | Kick => "kicking" | Ban => "banning"
  end.

Definition run (w : World) (bot : Bot) (c : Command)
    (ctx : Context) (member : Member) (reason : string) : M unit :=
  match c with
  | Warn => warn w bot ctx member reason
  | Mute duration => mute w bot ctx member duration reason
  | Kick => kick w bot ctx member reason
  | Ban => ban w bot ctx member reason
  end.

(** What a command does once the three authority checks have passed. *)
Definition proceed (w : World) (bot : Bot) (c : Command)
    (ctx : Context) (member : Member) (reason : string) : M unit :=
  match c with
  | Warn => warn_execute w ctx member reason
  | Mute duration => mute_validate w bot ctx member duration reason
  | Kick => kick_execute w ctx member reason
  | Ban => ban_execute w ctx member reason
  end.

Definition cannot_self (c : Command) : Reply :=
  Text ("You cannot " ++ verb c ++ " yourself.").

Definition cannot_bot (c : Command) : Reply :=
  Text ("I cannot " ++ verb c ++ " myself.").

Definition cannot_rank (c : Command) : Reply :=
  Text ("You cannot " ++ verb c ++ " someone with a higher or equal role.").

Definition rank (m : Member) : Z := role_rank (top_role m).

Definition is_guild_owner (ctx : Context) : bool :=
  match owner (guild ctx) with
  | Some o => id (author ctx) =? id o
  | None => false
  end.

(** The three authority checks all pass. *)
Definition authority_ok (bot : Bot) (ctx : Context) (member : Member) : bool :=
  negb (id member =? id (author ctx))
  && negb (id member =? user_id bot)
  && ((rank member <? rank (author ctx)) || is_guild_owner ctx).

(** A rejection: one reply, the store untouched, the handler returns. *)
Definition rejected (r : Reply) (db : Db) : list Event * Db * Res unit :=
  ([CtxSend r], db, Return tt).

(** The platform side effect of a command, and what the world answers. *)
Definition is_platform_action (e : Event) : bool :=
  match e with
  | AddRoles _ _ | MemberKick _ | MemberBan _ => true
  | _ => false
  end.

Definition platform_outcome (w : World) (c : Command) : option Exn :=
  match c with
  | Warn => None
  | Mute _ => add_roles w
  | Kick => member_kick w
  | Ban => member_ban w
  end.

Definition is_store_call (e : Event) : bool :=
  match e with
  | PoolFetchrow _ | PoolExecute _ => true
  | _ => false
  end.

Definition is_role_removal (e : Event) : bool :=
  match e with
  | RemoveRoles _ _ => true
  | _ => false
  end.

Definition is_sleep (e : Event) : bool :=
  match e with
  | Sleep _ => true
  | _ => false
  end.

(** Events that are neither a platform side effect of a command, nor a
    statement sent to the store, nor part of a scheduled unmute. *)
Definition is_preparation (e : Event) : bool :=
  negb (is_platform_action e || is_store_call e || is_role_removal e || is_sleep e).


(** What the [except] clauses of a command's [try] block report. *)
Definition error_report (c : Command) (e : Exn) : list Event :=
  match e with
  | Forbidden =>
      [CtxSend (Text ("I don't have permission to " ++ verb c ++ " this user."))]
  | _ =>
      [LoggerError ("Error " ++ gerund c ++ " user") e;
       CtxSend (Text ("An error occurred while trying to " ++ verb c ++ " the user."))]
  end.

(** The shape of a run in which the platform side effect fails with [e]:
    preparation only, then -- if the side effect was attempted at all -- that
    call followed by the error report and nothing more; the store is as it
    was. *)
Definition stops_at_failure (c : Command) (e : Exn) (db : Db)
    (r : list Event * Db * Res unit) : Prop :=
  exists pre,
    forallb is_preparation pre = true
    /\ ((exists a, is_platform_action a = true
                   /\ r = (pre ++ a :: error_report c e, db, Return tt))
        \/ (exists res, r = (pre, db, res))).

Definition generic_error (c : Command) : Event :=
  CtxSend (Text ("An error occurred while trying to " ++ verb c ++ " the user.")).

(** A world in which direct messages and the store do not fail. *)
Definition delivers (w : World) (member : Member) : bool :=
  match member_send w (id member) with
  | None | Some Forbidden => true
  | Some _ => false
  end.

End Contract.

Import Contract.

(** ** What a command may do to the store *)

Module StoreContract.

(** The duration column of the row a command writes. *)
Definition recorded_duration (w : World) (c : Command) (d : option Z) : Prop :=
  match c with
  | Mute s =>
      exists td,
        parse_duration (max_str_digits w) s = Return (Some td)
        /\ timedelta_truthy td = true
        /\ total_seconds td <= 2419200
        /\ d = Some (total_seconds td)
  | _ => d = None
  end.

(** The audit row of a command issued in [ctx] against [member], numbered by
    the sequence of [db]. *)
Definition audit_row (c : Command) (ctx : Context) (member : Member)
    (reason : string) (d : option Z) (db : Db) : LogRow :=
  {| log_id := next_log_id db;
     log_guild := guild_id (guild ctx);
     log_user := id member;
     log_moderator := id (author ctx);
     log_action_type := verb c;
     log_reason := Some reason;
     log_duration := d |}.

(** The audit log after a command: as it was, or longer by the command's row. *)
Definition log_step (c : Command) (ctx : Context) (member : Member)
    (reason : string) (d : option Z) (db db' : Db) : Prop :=
  (moderation_logs db' = moderation_logs db /\ next_log_id db' = next_log_id db)
  \/ (moderation_logs db' = moderation_logs db ++ [audit_row c ctx member reason d db]
      /\ next_log_id db' = next_log_id db + 1).

(** The [users] table after a command: as it was, or -- for [warn] only --
    with the target's existing counter replaced by its successor. *)
Definition users_step (c : Command) (member : Member) (db db' : Db) : Prop :=
  users db' = users db
  \/ (c = Warn
      /\ exists n,
           users db !! id member = Some {| warnings := Some n |}
           /\ users db'
              = alter (fun _ => {| warnings := Some (n + 1) |}) (id member) (users db)).

Definition store_step (c : Command) (ctx : Context) (member : Member)
    (reason : string) (d : option Z) (db db' : Db) : Prop :=
  pool db' = pool db
  /\ log_step c ctx member reason d db db'
  /\ users_step c member db db'.

(** The statements of a trace, in order. *)
Definition statements (t : list Event) : list Stmt :=
  flat_map (fun e => match e with
                     | PoolFetchrow q | PoolExecute q => [q]
                     | _ => []
                     end) t.

(** A world in which the store refuses every statement with [e]. *)
Definition store_down (w : World) (e : Exn) : Prop :=
  forall q, pg_failure w q = Some e.

(** The notice a command sends to its target, and -- for [kick] and [ban] --
    the platform call it makes ([mute]'s depends on the role it resolves). *)
Definition notice_of (c : Command) : Notice :=
  match c with
  | Warn => WarnNotice | Mute _ => MuteNotice | Kick => KickNotice | Ban => BanNotice
  end.

Definition platform_call (c : Command) (member : Member) : list Event :=
  match c with
  | Kick => [MemberKick (id member)]
  | Ban => [MemberBan (id member)]
  | _ => []
  end.

Definition untimed (c : Command) : bool :=
  match c with Mute _ => false | _ => true end.

(** The [INSERT] a command sends for its audit row. *)
Definition audit_insert (c : Command) (ctx : Context) (member : Member)
    (reason : string) (d : option Z) : Stmt :=
  InsertModerationLog (guild_id (guild ctx)) (id member) (id (author ctx))
    (verb c) (Some reason) d.

(** What a command reports when its [try] block raises [e]: [warn] has the
    one [except Exception] clause, the others single out [Forbidden]. *)
Definition report_of (c : Command) (e : Exn) : list Event :=
  match c with
  | Warn => [LoggerError "Error warning user" e; generic_error Warn]
  | _ => error_report c e
  end.

(** The store once [row] has been appended to the audit log. *)
Definition append_row (db : Db) (row : LogRow) : Db :=
  {| pool := pool db;
     users := users db;
     moderation_logs := moderation_logs db ++ [row];
     next_log_id := next_log_id db + 1 |}.

(** The same world, except that direct messages are delivered. *)
Definition dm_delivered (w : World) : World :=
  {| max_str_digits := max_str_digits w;
     member_send := fun _ => None;
     add_roles := add_roles w;
     remove_roles := remove_roles w;
     member_kick := member_kick w;
     member_ban := member_ban w;
     create_role := create_role w;
     set_permissions := set_permissions w;
     pg_failure := pg_failure w |}.

End StoreContract.

Import StoreContract.

(** ** More Python values: [str(int)], [range], slices *)

Module PyMore.

Definition digit_char (d : Z) : ascii := ascii_of_N (Z.to_N (48 + d)).

(** The decimal digits of a non-negative integer, most significant first,
    written in front of [acc]; [fuel] bounds the number of digits. *)
Fixpoint digits_fuel (fuel : nat) (n : Z) (acc : string) : string :=
  match fuel with
  | O => acc
  | S f =>
      let acc' := String (digit_char (n mod 10)) acc in
      if n <? 10 then acc' else digits_fuel f (n / 10) acc'
  end.

(** [str(n)] for an integer: a number below [2^k] has at most [k] digits. *)
Definition str_of_Z (n : Z) : string :=
  if n <? 0
  then String "-" (digits_fuel (S (Z.to_nat (Z.log2 (- n)))) (- n) "")
  else digits_fuel (S (Z.to_nat (Z.log2 n))) n "".

(** [range(start, stop, step)] as the list of its values; a zero step raises
    [ValueError]. *)
Definition range_length (start stop step : Z) : Z :=
  if step >? 0 then
    if start <? stop then (stop - start + step - 1) / step else 0
  else
    if stop <? start then (start - stop - step - 1) / (- step) else 0.

Definition range (start stop step : Z) : Res (list Z) :=
  if step =? 0 then Raise ValueError
  else Return (map (fun k => start + Z.of_nat k * step)
                 (seq 0 (Z.to_nat (range_length start stop step)))).

(** A slice bound brought into [0, len]: negative bounds count from the end. *)
Definition clamp (len i : Z) : Z :=
  if i <? 0 then Z.max 0 (i + len) else Z.min i len.

(** [l[a:b]] *)
Definition slice {A} (l : list A) (a b : Z) : list A :=
  let n := Z.of_nat (List.length l) in
  firstn (Z.to_nat (clamp n b - clamp n a)) (skipn (Z.to_nat (clamp n a)) l).

Fixpoint string_firstn (n : nat) (s : string) : string :=
  match n, s with
  | S k, String c r => String c (string_firstn k r)
  | _, _ => EmptyString
  end.

(** [s[:b]] on a string *)
Definition str_slice_to (s : string) (b : Z) : string :=
  string_firstn (Z.to_nat (clamp (Z.of_nat (String.length s)) b)) s.

(** [s.replace(c, '')] for a single character [c] *)
Fixpoint remove_char (c : ascii) (s : string) : string :=
  match s with
  | EmptyString => EmptyString
  | String x r => if Ascii.eqb x c then remove_char c r else String x (remove_char c r)
  end.

(** [sep.join(parts)] *)
Fixpoint join (sep : string) (parts : list string) : string :=
  match parts with
  | [] => ""
  | [p] => p
  | p :: rest => (p ++ sep ++ join sep rest)%string
  end.

(** The white space [int()] skips around an ASCII literal: TAB, LF, VT, FF,
    CR and SPACE (the separators FS..US are not among them). *)
Definition is_c_space (c : ascii) : bool :=
  ((9 <=? code c)%N && (code c <=? 13)%N) || (code c =? 32)%N.

Fixpoint lstrip_c (s : string) : string :=
  match s with
  | EmptyString => EmptyString
  | String c r => if is_c_space c then lstrip_c r else s
  end.

Fixpoint rstrip_c (s : string) : string :=
  match s with
  | EmptyString => EmptyString
  | String c r =>
      match rstrip_c r with
      | EmptyString => if is_c_space c then EmptyString else String c EmptyString
      | r' => String c r'
      end
  end.

(** The digits of an [int()] literal once the sign is gone: digits separated
    by single underscores, neither leading nor trailing.  [prev] tells whether
    the previous character was a digit.  The result is the digits alone. *)
Fixpoint literal_digits (prev_digit : bool) (s : string) : option string :=
  match s with
  | EmptyString => if prev_digit then Some EmptyString else None
  | String c r =>
      if is_digit c then
        match literal_digits true r with
        | Some ds => Some (String c ds)
        | None => None
        end
      else if Ascii.eqb c "_" then
        if prev_digit then
          match r with
          | String c' _ => if is_digit c' then literal_digits false r else None
          | EmptyString => None
          end
        else None
      else None
  end.

(** [int(s)] for an ASCII string [s]: optional white space, an optional sign,
    the digits; anything else, or more digits than the interpreter's limit,
    raises [ValueError]. *)
Definition int_of_str (max_str_digits : nat) (s : string) : Res Z :=
  let body := rstrip_c (lstrip_c s) in
  let '(negative, rest) :=
    match body with
    | String "-" r => (true, r)
    | String "+" r => (false, r)
    | _ => (false, body)
    end in
  match literal_digits false rest with
  | Some ds =>
      if (max_str_digits =? 0)%nat || (String.length ds <=? max_str_digits)%nat
      then Return (if negative then - int_of_digits 0 ds else int_of_digits 0 ds)
      else Raise ValueError
  | None => Raise ValueError
  end.

(** A character of the ASCII range, where [str.isspace], [str.lower] and
    the pattern's [\d] are what [is_space], [lower_char] and [is_digit]
    compute. *)
Definition is_ascii (c : ascii) : bool := (code c <? 128)%N.

(** [ds] is the decimal writing of [n]: digits only, their value [n], no
    leading zero (so that the length tells the magnitude). *)
Definition decimal_of (n : Z) (ds : string) : Prop :=
  all_chars is_digit ds = true
  /\ int_of_digits 0 ds = n
  /\ (n = 0 /\ ds = "0"%string
      \/ 10 ^ (Z.of_nat (String.length ds) - 1) <= n)
  /\ n < 10 ^ Z.of_nat (String.length ds)
  /\ (0 < String.length ds)%nat.

End PyMore.

Import PyMore.

(** ** The rest of [core/utils.py] *)

Module UtilsRest.

Section WithLimit.
Variable max_str_digits : nat.

Definition is_valid_discord_id (id_str : string) : Res bool :=
  try_except
    (bind (int_of_str max_str_digits id_str) (fun id_int =>
     let n := String.length (str_of_Z id_int) in
     Return ((17 <=? n)%nat && (n <=? 20)%nat)))
    ValueError
    (Return false).

End WithLimit.

(** [format_timedelta], for a duration of whole seconds ([total_seconds] is
    then the integer Python's [int(td.total_seconds())] yields). *)
Definition format_timedelta (td : timedelta) : string :=
  let total := total_seconds td in
  let days := total / 86400 in
  let hours := (total mod 86400) / 3600 in
  let minutes := (total mod 3600) / 60 in
  let seconds := total mod 60 in
  let parts := [] in
  let parts := if days =? 0 then parts else parts ++ [(str_of_Z days ++ "d")%string] in
  let parts := if hours =? 0 then parts else parts ++ [(str_of_Z hours ++ "h")%string] in
  let parts := if minutes =? 0 then parts else parts ++ [(str_of_Z minutes ++ "m")%string] in
  let parts :=
    if negb (seconds =? 0) || match parts with [] => true | _ => false end
    then parts ++ [(str_of_Z seconds ++ "s")%string] else parts in
  join " " parts.

Definition sanitize_input (text : string) (max_length : Z) : string :=
  match text with
  | EmptyString => ""
  | _ =>
      let text := str_slice_to text max_length in
      let text := remove_char zero text in
      let text := remove_char zero text in
      strip text
  end.

Definition not_nul (c : ascii) : bool := negb (Ascii.eqb c zero).

Definition calculate_xp_needed (level : Z) : Z :=
  50 * level ^ 2 + 100 * level + 50.

(** The [while] loop of [get_level_from_xp]; [None] when [fuel] runs out. *)
Fixpoint level_loop (fuel : nat) (xp level : Z) : option Z :=
  match fuel with
  | O => None
  | S f =>
      if xp >=? calculate_xp_needed level
      then level_loop f (xp - calculate_xp_needed level) (level + 1)
      else Some level
  end.

Definition get_level_from_xp (xp : Z) : option Z :=
  level_loop (S (Z.to_nat xp)) xp 0.

Definition chunk_list {A} (lst : list A) (chunk_size : Z) : Res (list (list A)) :=
  bind (range 0 (Z.of_nat (List.length lst)) chunk_size) (fun indices =>
  Return (map (fun i => slice lst i (i + chunk_size)) indices)).

(** The total experience at which [level] is reached, times three:
    [3 * sum (calculate_xp_needed i) for i < level]. *)
Definition thrice_xp_for (level : Z) : Z :=
  25 * level * (level + 1) * (2 * level + 1).

(** The characters of one part of a formatted duration: digits and the four
    unit letters. *)
Definition is_part_char (c : ascii) : bool :=
  is_digit c || Ascii.eqb c "d" || Ascii.eqb c "h" || Ascii.eqb c "m" || Ascii.eqb c "s".

Definition is_part (p : string) : Prop :=
  all_chars is_part_char p = true /\ p <> ""%string.

(** The seconds of the first non-zero unit of a duration of [total] seconds:
    its whole days if there are any, else its whole hours, else its whole
    minutes, else its seconds. *)
Definition leading_seconds (total : Z) : Z :=
  let days := total / 86400 in
  let hours := (total mod 86400) / 3600 in
  let minutes := (total mod 3600) / 60 in
  let seconds := total mod 60 in
  if negb (days =? 0) then 86400 * days
  else if negb (hours =? 0) then 3600 * hours
  else if negb (minutes =? 0) then 60 * minutes
  else seconds.

(** [a - b] on naive datetimes, each given as its number of microseconds
    since the start of the calendar: the difference, normalised as
    [timedelta] normalises (seconds in [0, 86400), microseconds in
    [0, 10^6), the sign carried by the days). *)
Definition datetime_sub (a b : Z) : timedelta :=
  let us := a - b in
  {| days := us / 86400000000;
     seconds := (us mod 86400000000) / 1000000;
     microseconds := us mod 1000000 |}.

(** [time_since]; [now] is what [datetime.utcnow()] returns. *)
Definition time_since (now dt : Z) : string :=
  let diff := datetime_sub now dt in
  if days diff >? 0
  then (str_of_Z (days diff) ++ " day"
        ++ (if negb (days diff =? 1)%Z then "s" else "") ++ " ago")%string
  else
    let hours := seconds diff / 3600 in
    if hours >? 0
    then (str_of_Z hours ++ " hour"
          ++ (if negb (hours =? 1)%Z then "s" else "") ++ " ago")%string
    else
      let minutes := seconds diff / 60 in
      if minutes >? 0
      then (str_of_Z minutes ++ " minute"
            ++ (if negb (minutes =? 1)%Z then "s" else "") ++ " ago")%string
      else "Just now".

Definition microseconds_per_day : Z := 86400000000.

End UtilsRest.

Import UtilsRest.

(** ** [DatabaseManager.update_server_config] of [core/database.py] *)

Module ServerConfig.

(** A query argument: an identifier or a text. *)
Inductive Arg := IntArg (n : Z) | TextArg (s : string).

Definition valid_fields : list string :=
  ["prefix"; "mod_role_id"; "admin_role_id"; "mute_role_id";
   "log_channel_id"; "mod_log_channel_id"; "welcome_channel_id"].

(** [field in valid_fields] *)
Definition is_valid_field (field : string) : bool :=
  existsb (String.eqb field) valid_fields.

(** The state of the [for] loop: [set_parts], [values], [param_index]. *)
Definition LoopState : Type := list string * list Arg * Z.

Definition loop_body (st : LoopState) (kw : string * Arg) : LoopState :=
  let '(set_parts, values, param_index) := st in
  let '(field, value) := kw in
  if is_valid_field field
  then (set_parts ++ [(field ++ " = $" ++ str_of_Z param_index)%string],
        values ++ [value],
        param_index + 1)
  else st.

Definition nl : string := String "010" "".

(** The text of the statement, as the f-string lays it out around the
    keyword names, the placeholders and the assignments. *)
Definition statement_text (columns placeholders set_parts : list string) : string :=
  (nl ++ "            INSERT INTO server_config (guild_id, " ++ join ", " columns ++ ")"
   ++ nl ++ "            VALUES (" ++ join ", " placeholders ++ ")"
   ++ nl ++ "            ON CONFLICT (guild_id) DO UPDATE SET"
   ++ nl ++ "                " ++ join ", " set_parts ++ ", updated_at = NOW()"
   ++ nl ++ "        ")%string.

(** [update_server_config(guild_id, **kwargs)], up to the call it ends with:
    [Some (query, values)] stands for [await self.execute(query, *values)],
    [None] for the early [return].  [kwargs] are the keywords in the order
    given. *)
Definition update_server_config (guild_id : Z) (kwargs : list (string * Arg))
  : Res (option (string * list Arg)) :=
  let '(set_parts, values, _) := fold_left loop_body kwargs ([], [IntArg guild_id], 2) in
  match set_parts with
  | [] => Return None
  | _ =>
      bind (range 1 (Z.of_nat (List.length values) + 1) 1) (fun indices =>
      let query :=
        statement_text (map fst kwargs)
          (map (fun i => ("$" ++ str_of_Z i)%string) indices) set_parts in
      Return (Some (query, values)))
  end.

(** The keywords the loop keeps, and what it makes of the [j]-th of them. *)
Definition kept (kwargs : list (string * Arg)) : list (string * Arg) :=
  List.filter (fun kw => is_valid_field (fst kw)) kwargs.

Definition assignment (j : nat) (kw : string * Arg) : string :=
  (fst kw ++ " = $" ++ str_of_Z (Z.of_nat j + 2)%Z)%string.

Fixpoint assignments_from (j : nat) (kws : list (string * Arg)) : list string :=
  match kws with
  | [] => []
  | kw :: rest => assignment j kw :: assignments_from (S j) rest
  end.

Definition placeholders (n : nat) : list string :=
  map (fun k => ("$" ++ str_of_Z (Z.of_nat (S k)))%string) (seq 0 n).

End ServerConfig.

Import ServerConfig.

(** ** Properties of [parse_duration] *)

Section StringFacts.

Ltac char_arith :=
  unfold is_digit, is_space, lower_char in *;
  repeat match goal with
  | H : context [(?a <=? ?b)%N] |- _ => destruct (N.leb_spec a b); simpl in H
  | |- context [(?a <=? ?b)%N] => destruct (N.leb_spec a b); simpl
  end; try discriminate; try reflexivity; try lia.

Lemma digit_not_space c : is_digit c = true -> is_space c = false.
Proof. intros H. char_arith. Qed.

Lemma digit_lower c : is_digit c = true -> lower_char c = c.
Proof. intros H. char_arith. Qed.

Lemma space_lower c : is_space c = true -> lower_char c = c.
Proof. intros H. char_arith. Qed.

Lemma lower_app a b : lower (a ++ b) = (lower a ++ lower b)%string.
Proof. induction a as [|c a IH]; simpl; [reflexivity | now rewrite IH]. Qed.

Lemma lower_fixed (p : ascii -> bool) s :
  (forall c, p c = true -> lower_char c = c) ->
  all_chars p s = true -> lower s = s.
Proof.
  intros Hp. induction s as [|c s IH]; simpl; [reflexivity|].
  intros [Hc Hs]%andb_true_iff. now rewrite (Hp c Hc), IH.
Qed.

Lemma all_chars_app p a b :
  all_chars p (a ++ b) = all_chars p a && all_chars p b.
Proof.
  induction a as [|c a IH]; simpl; [reflexivity|].
  now rewrite IH, andb_assoc.
Qed.

Lemma lstrip_spaces ws s : all_chars is_space ws = true -> lstrip (ws ++ s) = lstrip s.
Proof.
  induction ws as [|c ws IH]; simpl; [reflexivity|].
  intros [Hc Hs]%andb_true_iff. rewrite Hc. auto.
Qed.

Lemma lstrip_all_spaces ws : all_chars is_space ws = true -> lstrip ws = "".
Proof.
  induction ws as [|c ws IH]; simpl; [reflexivity|].
  intros [Hc Hs]%andb_true_iff. rewrite Hc. auto.
Qed.

Lemma rstrip_all_spaces ws : all_chars is_space ws = true -> rstrip ws = "".
Proof.
  induction ws as [|c ws IH]; simpl; [reflexivity|].
  intros [Hc Hs]%andb_true_iff. now rewrite (IH Hs), Hc.
Qed.

Lemma rstrip_body b ws :
  all_chars not_space b = true -> all_chars is_space ws = true ->
  rstrip (b ++ ws) = b.
Proof.
  intros Hb Hws. induction b as [|c b IH]; simpl.
  - now apply rstrip_all_spaces.
  - simpl in Hb. apply andb_true_iff in Hb as [Hc Hb].
    rewrite (IH Hb). unfold not_space in Hc.
    apply negb_true_iff in Hc. rewrite Hc. now destruct b.
Qed.

Lemma strip_body ws1 b ws2 :
  all_chars is_space ws1 = true -> all_chars not_space b = true ->
  all_chars is_space ws2 = true ->
  strip (ws1 ++ b ++ ws2) = b.
Proof.
  intros H1 Hb H2. unfold strip. rewrite lstrip_spaces by assumption.
  destruct b as [|c b].
  - simpl. rewrite lstrip_all_spaces by assumption. reflexivity.
  - assert (Hc : is_space c = false).
    { simpl in Hb. apply andb_true_iff in Hb as [Hc _].
      now apply negb_true_iff in Hc. }
    change (lstrip (String c b ++ ws2)) with
      (if is_space c then lstrip (b ++ ws2) else (String c b ++ ws2)%string).
    rewrite Hc. now apply rstrip_body.
Qed.

Lemma span_digits_run ds u rest :
  all_chars is_digit ds = true -> is_digit u = false ->
  span_digits (ds ++ String u rest) = (ds, String u rest).
Proof.
  intros Hds Hu. induction ds as [|c ds IH]; simpl.
  - now rewrite Hu.
  - simpl in Hds. apply andb_true_iff in Hds as [Hc Hds].
    now rewrite Hc, (IH Hds).
Qed.

Lemma int_of_digits_nonneg s acc :
  all_chars is_digit s = true -> 0 <= acc -> 0 <= int_of_digits acc s.
Proof.
  revert acc. induction s as [|c s IH]; simpl; intros acc Hs Hacc; [assumption|].
  apply andb_true_iff in Hs as [Hc Hs]. apply IH; [assumption|].
  unfold is_digit in Hc. apply andb_true_iff in Hc as [Hlo _].
  apply N.leb_le in Hlo. lia.
Qed.

End StringFacts.

Section MatchFacts.

Lemma append_nil (s : string) : ("" ++ s)%string = s.
Proof. reflexivity. Qed.

Lemma append_cons c (a b : string) : (String c a ++ b)%string = String c (a ++ b).
Proof. reflexivity. Qed.

Lemma string_app_assoc (a b c : string) : ((a ++ b) ++ c = a ++ (b ++ c))%string.
Proof.
  induction a as [|x a IH]; rewrite ?append_nil, ?append_cons;
    [reflexivity | now rewrite IH].
Qed.

Lemma group_ok_inv u ds c :
  group_ok u (Some (ds, c)) = true ->
  ds <> ""%string /\ all_chars is_digit ds = true /\ (c = u \/ c = upper_of u).
Proof.
  simpl. intros [[Hne Hds]%andb_true_iff Hc]%andb_true_iff.
  repeat split.
  - intros ->. discriminate.
  - assumption.
  - apply orb_true_iff in Hc as [Hc|Hc]; apply Ascii.eqb_eq in Hc; auto.
Qed.

Lemma lower_group u g :
  unit_letter u -> group_ok u g = true -> lower (group_text g) = canonical u g.
Proof.
  intros (Hl & Hu & _) Hok. destruct g as [[ds c]|]; [|reflexivity].
  apply group_ok_inv in Hok as (_ & Hds & Hc). simpl.
  rewrite lower_app, (lower_fixed is_digit) by auto using digit_lower.
  simpl. destruct Hc as [-> | ->]; now rewrite ?Hl, ?Hu.
Qed.

Lemma canonical_no_space u g :
  unit_letter u -> group_ok u g = true -> all_chars not_space (canonical u g) = true.
Proof.
  intros (_ & _ & _ & Hs) Hok. destruct g as [[ds c]|]; [|reflexivity].
  apply group_ok_inv in Hok as (_ & Hds & _). simpl.
  rewrite all_chars_app. apply andb_true_iff. split.
  - clear -Hds. induction ds as [|x ds IH]; simpl in *; [reflexivity|].
    apply andb_true_iff in Hds as [Hx Hds]. unfold not_space at 1.
    now rewrite (digit_not_space x Hx), IH.
  - simpl. unfold not_space. now rewrite Hs.
Qed.

Lemma match_group_skip u l :
  later_groups u l -> match_group u (canonical_all l) = (None, canonical_all l).
Proof.
  induction 1 as [|[u' g] l (Hne & Hd & Hok) _ IH]; [reflexivity|].
  simpl in *. destruct g as [[ds c]|]; [|exact IH].
  apply group_ok_inv in Hok as (Hds0 & Hds & _). simpl.
  rewrite string_app_assoc, append_cons, append_nil. unfold match_group.
  rewrite span_digits_run by assumption.
  destruct ds as [|x ds]; [congruence|].
  destruct (Ascii.eqb_spec u' u); [contradiction | reflexivity].
Qed.

Lemma match_group_step u g l :
  is_digit u = false -> group_ok u g = true -> later_groups u l ->
  match_group u (canonical u g ++ canonical_all l) = (digits_of g, canonical_all l).
Proof.
  intros Hu Hok Hl. destruct g as [[ds c]|]; simpl.
  - apply group_ok_inv in Hok as (Hds0 & Hds & _).
    rewrite string_app_assoc, append_cons, append_nil. unfold match_group.
    rewrite span_digits_run by assumption.
    destruct ds as [|x ds]; [congruence|].
    now rewrite Ascii.eqb_refl.
  - now apply match_group_skip.
Qed.

Lemma unit_d : unit_letter "d". Proof. now repeat split. Qed.
Lemma unit_h : unit_letter "h". Proof. now repeat split. Qed.
Lemma unit_m : unit_letter "m". Proof. now repeat split. Qed.
Lemma unit_s : unit_letter "s". Proof. now repeat split. Qed.

Lemma re_match_pattern_canonical gd gh gm gs :
  group_ok "d" gd = true -> group_ok "h" gh = true ->
  group_ok "m" gm = true -> group_ok "s" gs = true ->
  re_match_pattern (canonical_all [("d", gd); ("h", gh); ("m", gm); ("s", gs)]%char)
  = Some {| group1 := digits_of gd; group2 := digits_of gh;
            group3 := digits_of gm; group4 := digits_of gs |}.
Proof.
  intros Hd Hh Hm Hs. unfold re_match_pattern.
  change (canonical_all [("d", gd); ("h", gh); ("m", gm); ("s", gs)]%char)
    with (canonical "d" gd ++ canonical_all [("h", gh); ("m", gm); ("s", gs)]%char)%string.
  rewrite match_group_step; [|reflexivity|assumption|].
  2:{ repeat constructor; simpl; try assumption; discriminate. }
  change (canonical_all [("h", gh); ("m", gm); ("s", gs)]%char)
    with (canonical "h" gh ++ canonical_all [("m", gm); ("s", gs)]%char)%string.
  rewrite match_group_step; [|reflexivity|assumption|].
  2:{ repeat constructor; simpl; try assumption; discriminate. }
  change (canonical_all [("m", gm); ("s", gs)]%char)
    with (canonical "m" gm ++ canonical_all [("s", gs)]%char)%string.
  rewrite match_group_step; [|reflexivity|assumption|].
  2:{ repeat constructor; simpl; try assumption; discriminate. }
  change (canonical_all [("s", gs)]%char)
    with (canonical "s" gs ++ canonical_all [])%string.
  rewrite match_group_step; [|reflexivity|assumption|constructor].
  reflexivity.
Qed.

End MatchFacts.

Section ParseDurationFacts.

Lemma int_group limit g :
  group_within limit g = true ->
  int limit (match digits_of g with Some x => x | None => "0" end)
  = Return (group_value g).
Proof.
  destruct g as [[ds c]|]; simpl; unfold int.
  - now intros ->.
  - intros _. now destruct limit.
Qed.

Lemma canonical_all_no_space gd gh gm gs :
  group_ok "d" gd = true -> group_ok "h" gh = true ->
  group_ok "m" gm = true -> group_ok "s" gs = true ->
  all_chars not_space
    (canonical_all [("d", gd); ("h", gh); ("m", gm); ("s", gs)]%char) = true.
Proof.
  intros Hd Hh Hm Hs. simpl.
  rewrite !all_chars_app.
  rewrite (canonical_no_space _ _ unit_d Hd), (canonical_no_space _ _ unit_h Hh),
    (canonical_no_space _ _ unit_m Hm), (canonical_no_space _ _ unit_s Hs).
  reflexivity.
Qed.

Lemma well_formed_inv limit ws1 gd gh gm gs ws2 :
  well_formed limit ws1 gd gh gm gs ws2 = true ->
  (all_chars is_space ws1 = true /\ all_chars is_space ws2 = true)
  /\ (group_ok "d" gd = true /\ group_ok "h" gh = true
      /\ group_ok "m" gm = true /\ group_ok "s" gs = true)
  /\ (group_within limit gd = true /\ group_within limit gh = true
      /\ group_within limit gm = true /\ group_within limit gs = true).
Proof.
  unfold well_formed. rewrite !andb_true_iff. tauto.
Qed.

Lemma lower_duration_text limit ws1 gd gh gm gs ws2 :
  well_formed limit ws1 gd gh gm gs ws2 = true ->
  lower (duration_text ws1 gd gh gm gs ws2)
  = (ws1 ++ canonical_all [("d", gd); ("h", gh); ("m", gm); ("s", gs)]%char ++ ws2)%string.
Proof.
  intros ((H1 & H2) & (Hd & Hh & Hm & Hs) & _)%well_formed_inv.
  unfold duration_text. rewrite !lower_app.
  rewrite (lower_group _ _ unit_d Hd), (lower_group _ _ unit_h Hh),
    (lower_group _ _ unit_m Hm), (lower_group _ _ unit_s Hs).
  rewrite !(lower_fixed is_space) by auto using space_lower.
  unfold canonical_all. now rewrite !string_app_assoc, append_nil.
Qed.

(** On a well-formed text the parser reaches the [timedelta] constructor
    with the four numbers written in the text. *)
Lemma parse_duration_well_formed limit ws1 gd gh gm gs ws2 :
  well_formed limit ws1 gd gh gm gs ws2 = true ->
  parse_duration limit (duration_text ws1 gd gh gm gs ws2)
  = bind (timedelta_new (group_value gd) (group_value gh)
            (group_value gm) (group_value gs))
      (fun td => Return (Some td)).
Proof.
  intros Hwf. unfold parse_duration.
  rewrite (lower_duration_text limit) by assumption.
  apply well_formed_inv in Hwf
    as ((H1 & H2) & (Hd & Hh & Hm & Hs) & (Ld & Lh & Lm & Ls)).
  rewrite strip_body by auto using canonical_all_no_space.
  rewrite re_match_pattern_canonical by assumption.
  unfold groups. cbn [group1 group2 group3 group4].
  rewrite (int_group _ _ Ld). cbn [bind].
  rewrite (int_group _ _ Lh). cbn [bind].
  rewrite (int_group _ _ Lm). cbn [bind].
  rewrite (int_group _ _ Ls). cbn [bind].
  unfold timedelta_new.
  now destruct (Z.abs _ >? max_timedelta_days).
Qed.

Lemma group_value_nonneg u g : group_ok u g = true -> 0 <= group_value g.
Proof.
  destruct g as [[ds c]|]; [|simpl; lia].
  intros (_ & Hds & _)%group_ok_inv. simpl.
  apply int_of_digits_nonneg; [assumption | lia].
Qed.

Lemma duration_value_nonneg limit ws1 gd gh gm gs ws2 :
  well_formed limit ws1 gd gh gm gs ws2 = true -> 0 <= duration_value gd gh gm gs.
Proof.
  intros (_ & (Hd & Hh & Hm & Hs) & _)%well_formed_inv.
  apply group_value_nonneg in Hd, Hh, Hm, Hs. unfold duration_value. lia.
Qed.

Lemma timedelta_new_total d h m s :
  timedelta_new d h m s
  = if Z.abs ((86400 * d + 3600 * h + 60 * m + s) / 86400) >? max_timedelta_days
    then Raise OverflowError
    else Return {| days := (86400 * d + 3600 * h + 60 * m + s) / 86400;
                   seconds := (86400 * d + 3600 * h + 60 * m + s) mod 86400;
                   microseconds := 0 |}.
Proof.
  unfold timedelta_new.
  now replace (d * 86400 + h * 3600 + m * 60 + s)
    with (86400 * d + 3600 * h + 60 * m + s) by lia.
Qed.

(** Totals beyond the 999999999 days of [timedelta] raise [OverflowError],
    which the [except ValueError] clause does not catch. *)
Lemma parse_duration_out_of_range limit ws1 gd gh gm gs ws2 :
  well_formed limit ws1 gd gh gm gs ws2 = true ->
  86400 * 1000000000 <= duration_value gd gh gm gs ->
  parse_duration limit (duration_text ws1 gd gh gm gs ws2) = Raise OverflowError.
Proof.
  intros Hwf Hbig. rewrite (parse_duration_well_formed limit) by assumption.
  rewrite timedelta_new_total. fold (duration_value gd gh gm gs).
  assert (1000000000 <= duration_value gd gh gm gs / 86400)
    by (apply Z.div_le_lower_bound; lia).
  unfold max_timedelta_days.
  destruct (Z.gtb_spec (Z.abs (duration_value gd gh gm gs / 86400)) 999999999);
    [reflexivity | lia].
Qed.

End ParseDurationFacts.

(** ** Claims about [parse_duration] *)

(** C3.  The claim asks for the error result on the empty string, on "abc"
    and on "90".  The pattern matches the empty prefix of every string, so the
    [if not match] branch is never taken: with no pair matched, the four
    groups default to "0" and [parse_duration] returns the zero duration, not
    [None]. *)
Theorem parse_duration_no_pair_gives_zero (limit : nat) :
  let zero := {| days := 0; seconds := 0; microseconds := 0 |} in
  parse_duration limit "" = Return (Some zero)
  /\ parse_duration limit "abc" = Return (Some zero)
  /\ parse_duration limit "90" = Return (Some zero).
Proof.
  destruct limit; repeat split; reflexivity.
Qed.

(** C5.  A well-formed duration text whose total does not fit a signed 64-bit
    count of seconds makes [parse_duration] raise [OverflowError]: the
    [timedelta] constructor refuses it and the handler only catches
    [ValueError]. *)
Theorem parse_duration_overflow_raises limit ws1 gd gh gm gs ws2 :
  well_formed limit ws1 gd gh gm gs ws2 = true ->
  2 ^ 63 <= duration_value gd gh gm gs ->
  parse_duration limit (duration_text ws1 gd gh gm gs ws2) = Raise OverflowError.
Proof.
  intros Hwf Hbig. apply parse_duration_out_of_range; [assumption|].
  change (2 ^ 63) with 9223372036854775808 in Hbig. lia.
Qed.

Lemma parse_duration_overflow_raises_witness :
  parse_duration 4300 "18446744073709551616s" = Raise OverflowError.
Proof.
  apply (parse_duration_overflow_raises 4300 "" None None None
           (Some ("18446744073709551616", "s"%char)) "").
  - reflexivity.
  - vm_compute. discriminate.
Defined.

(** C6 (as the code has it).  For every text of the form
    [(\d+d)?(\d+h)?(\d+m)?(\d+s)?] with at least one group present,
    surrounded by white space and in either case, whose numbers [int]
    converts and whose total stays below 86400 * 10^9 seconds (the 999999999
    days a [timedelta] can hold), [parse_duration] returns a duration of
    86400*d + 3600*h + 60*m + s seconds. *)
Theorem parse_duration_total_seconds limit ws1 gd gh gm gs ws2 :
  well_formed limit ws1 gd gh gm gs ws2 = true ->
  any_group gd gh gm gs = true ->
  duration_value gd gh gm gs < 86400 * 1000000000 ->
  exists td,
    parse_duration limit (duration_text ws1 gd gh gm gs ws2) = Return (Some td)
    /\ total_seconds td = 86400 * group_value gd + 3600 * group_value gh
                          + 60 * group_value gm + group_value gs.
Proof.
  intros Hwf _ Hsmall.
  pose proof (duration_value_nonneg _ _ _ _ _ _ _ Hwf) as Hpos.
  rewrite (parse_duration_well_formed limit) by assumption.
  rewrite timedelta_new_total. fold (duration_value gd gh gm gs).
  assert (0 <= duration_value gd gh gm gs / 86400 < 1000000000) as Hq.
  { split; [apply Z.div_pos; lia | apply Z.div_lt_upper_bound; lia]. }
  unfold max_timedelta_days.
  destruct (Z.gtb_spec (Z.abs (duration_value gd gh gm gs / 86400)) 999999999);
    [lia|].
  eexists. split; [reflexivity|].
  unfold total_seconds. cbn [days seconds].
  pose proof (Z.div_mod (duration_value gd gh gm gs) 86400). lia.
Qed.

(** The instance [parse_duration("1d2h30m")], of 95400 seconds. *)
Lemma parse_duration_total_seconds_witness :
  exists td,
    parse_duration 4300 "1d2h30m" = Return (Some td) /\ total_seconds td = 95400.
Proof.
  apply (parse_duration_total_seconds 4300 ""
           (Some ("1", "d"%char)) (Some ("2", "h"%char)) (Some ("30", "m"%char))
           None "").
  - reflexivity.
  - reflexivity.
  - vm_compute. reflexivity.
Defined.

(** C6 as stated fails: "1000000000d" has the required form, yet no duration
    is returned for it. *)
Lemma parse_duration_days_out_of_range :
  duration_text "" (Some ("1000000000", "d"%char)) None None None "" = "1000000000d"
  /\ parse_duration 4300 "1000000000d" = Raise OverflowError
  /\ ~ (exists td, parse_duration 4300 "1000000000d" = Return (Some td)
                   /\ total_seconds td = 86400 * 1000000000).
Proof.
  split; [reflexivity|]. split; [reflexivity|].
  intros (td & H & _). vm_compute in H. discriminate.
Qed.

(** ** The authority checks *)

Section AuthorityFacts.
Variables (w : World) (bot : Bot).

Lemma member_ne_owner ctx :
  member_ne (author ctx) (owner (guild ctx)) = negb (is_guild_owner ctx).
Proof. unfold member_ne, is_guild_owner. now destruct (owner (guild ctx)). Qed.

Lemma run_self c ctx member reason db :
  id member = id (author ctx) ->
  run w bot c ctx member reason db = rejected (cannot_self c) db.
Proof.
  intros H. destruct c; unfold run, warn, mute, kick, ban;
    rewrite H, Z.eqb_refl; reflexivity.
Qed.

Lemma run_bot c ctx member reason db :
  id member <> id (author ctx) -> id member = user_id bot ->
  run w bot c ctx member reason db = rejected (cannot_bot c) db.
Proof.
  intros Hs%Z.eqb_neq H. destruct c; unfold run, warn, mute, kick, ban;
    rewrite Hs, H, Z.eqb_refl; reflexivity.
Qed.

Lemma run_rank c ctx member reason db :
  id member <> id (author ctx) -> id member <> user_id bot ->
  rank (author ctx) <= rank member -> is_guild_owner ctx = false ->
  run w bot c ctx member reason db = rejected (cannot_rank c) db.
Proof.
  intros Hs%Z.eqb_neq Hb%Z.eqb_neq Hr%Z.leb_le Ho.
  unfold rank in Hr.
  destruct c; unfold run, warn, mute, kick, ban, role_le;
    rewrite Hs, Hb, Hr, member_ne_owner, Ho; reflexivity.
Qed.

Lemma run_proceed c ctx member reason db :
  authority_ok bot ctx member = true ->
  run w bot c ctx member reason db = proceed w bot c ctx member reason db.
Proof.
  unfold authority_ok, rank.
  intros [[Hs%negb_true_iff Hb%negb_true_iff]%andb_true_iff H]%andb_true_iff.
  assert (role_le (top_role (author ctx)) (top_role member)
          && member_ne (author ctx) (owner (guild ctx)) = false) as Hg.
  { rewrite member_ne_owner. unfold role_le.
    apply orb_true_iff in H as [H%Z.ltb_lt | ->].
    - destruct (Z.leb_spec (role_rank (top_role (author ctx)))
                  (role_rank (top_role member))); [lia | reflexivity].
    - apply andb_false_r. }
  destruct c; unfold run, proceed, warn, mute, kick, ban;
    rewrite Hs, Hb, Hg; reflexivity.
Qed.

End AuthorityFacts.

(** C9.  A command aimed at its own author, or at the bot, is rejected
    whatever the ranks and whoever owns the guild: the handler sends the one
    refusal and returns, with no other call made and the store untouched. *)
Theorem self_and_bot_target_rejected w bot c ctx member reason db :
  (id member = id (author ctx) ->
   run w bot c ctx member reason db = ([CtxSend (cannot_self c)], db, Return tt))
  /\ (id member <> id (author ctx) -> id member = user_id bot ->
      run w bot c ctx member reason db = ([CtxSend (cannot_bot c)], db, Return tt)).
Proof.
  split; [apply run_self | apply run_bot].
Qed.

Lemma self_and_bot_target_rejected_witness :
  run calm cascade Ban (ctx_of founder) founder "x" empty_db
  = ([CtxSend (Text "You cannot ban yourself.")], empty_db, Return tt)
  /\ run calm cascade (Mute "1h") (ctx_of founder) the_bot "x" empty_db
     = ([CtxSend (Text "I cannot mute myself.")], empty_db, Return tt).
Proof.
  split.
  - apply (proj1 (self_and_bot_target_rejected calm cascade Ban
                    (ctx_of founder) founder "x" empty_db)).
    reflexivity.
  - apply (proj2 (self_and_bot_target_rejected calm cascade (Mute "1h")
                    (ctx_of founder) the_bot "x" empty_db)).
    + discriminate.
    + reflexivity.
Defined.



(** ** The bound on the mute duration *)

Section MuteValidation.
Variables (w : World) (bot : Bot).

Lemma run_not_authorised c ctx member reason db :
  authority_ok bot ctx member = false ->
  exists r, run w bot c ctx member reason db = rejected r db.
Proof.
  intros H.
  destruct (Z.eq_dec (id member) (id (author ctx))) as [Hs|Hs].
  { exists (cannot_self c). now apply run_self. }
  destruct (Z.eq_dec (id member) (user_id bot)) as [Hb|Hb].
  { exists (cannot_bot c). now apply run_bot. }
  exists (cannot_rank c). unfold authority_ok in H.
  apply Z.eqb_neq in Hs as Hs', Hb as Hb'. rewrite Hs', Hb' in H. simpl in H.
  apply orb_false_iff in H as [Hr%Z.ltb_ge Ho].
  now apply run_rank.
Qed.

Lemma nonzero_truthy td : total_seconds td <> 0 -> timedelta_truthy td = true.
Proof.
  unfold total_seconds, timedelta_truthy. intros H.
  destruct (Z.eqb_spec (days td) 0) as [Hd|]; [|reflexivity].
  destruct (Z.eqb_spec (seconds td) 0) as [Hs|]; [|reflexivity].
  rewrite Hd, Hs in H. now contradiction H.
Qed.

Lemma mute_validate_too_long ctx member duration reason db td :
  parse_duration (max_str_digits w) duration = Return (Some td) ->
  2419201 <= total_seconds td ->
  mute_validate w bot ctx member duration reason db
  = rejected (Text "Maximum mute duration is 28 days.") db.
Proof.
  intros Hp Hlong. unfold mute_validate, bindM, lift. rewrite Hp.
  rewrite nonzero_truthy by lia. cbn [negb]. unfold max_mute_seconds.
  destruct (Z.gtb_spec (total_seconds td) 2419200); [reflexivity | lia].
Qed.

Lemma mute_validate_in_bound ctx member duration reason db td :
  parse_duration (max_str_digits w) duration = Return (Some td) ->
  0 < total_seconds td <= 2419200 ->
  mute_validate w bot ctx member duration reason db
  = mute_apply w bot ctx member duration reason td db.
Proof.
  intros Hp Hin. unfold mute_validate, bindM, lift. rewrite Hp.
  rewrite nonzero_truthy by lia. cbn [negb]. unfold max_mute_seconds.
  destruct (Z.gtb_spec (total_seconds td) 2419200); [lia|].
  now destruct (mute_apply w bot ctx member duration reason td db) as [[t d] r].
Qed.

End MuteValidation.

(** C7.  A parsed duration of 2,419,201 seconds or more makes [mute] stop
    with a single reply and nothing else done -- the reply being the
    28-day refusal as soon as the authority checks pass -- while a parsed
    duration of exactly 2,419,200 seconds passes the bound and the command
    goes on to resolve the mute role and apply it. *)
Theorem mute_duration_bound w bot ctx member duration reason db td :
  parse_duration (max_str_digits w) duration = Return (Some td) ->
  (2419201 <= total_seconds td ->
   exists r,
     mute w bot ctx member duration reason db = ([CtxSend r], db, Return tt)
     /\ (authority_ok bot ctx member = true ->
         r = Text "Maximum mute duration is 28 days."))
  /\ (total_seconds td = 2419200 -> authority_ok bot ctx member = true ->
      mute w bot ctx member duration reason db
      = mute_apply w bot ctx member duration reason td db).
Proof.
  intros Hp. split.
  - intros Hlong. destruct (authority_ok bot ctx member) eqn:Hok.
    + exists (Text "Maximum mute duration is 28 days."). split; [|reflexivity].
      change (mute w bot ctx member duration reason db)
        with (run w bot (Mute duration) ctx member reason db).
      rewrite run_proceed by assumption.
      now apply (mute_validate_too_long w bot ctx member duration reason db td).
    + destruct (run_not_authorised w bot (Mute duration) ctx member reason db Hok)
        as [r Hr].
      exists r. split; [exact Hr | discriminate].
  - intros Heq Hok.
    change (mute w bot ctx member duration reason db)
      with (run w bot (Mute duration) ctx member reason db).
    rewrite run_proceed by assumption.
    apply mute_validate_in_bound; [assumption | lia].
Qed.

(** "28d" is exactly 2,419,200 seconds: the role is added and the audit row
    records that duration; "28d1s" is refused. *)
Lemma mute_duration_bound_witness :
  (exists r,
     mute calm cascade (ctx_of alice) bob "28d1s" "spam" empty_db
     = ([CtxSend r], empty_db, Return tt)
     /\ (authority_ok cascade (ctx_of alice) bob = true ->
         r = Text "Maximum mute duration is 28 days."))
  /\ mute calm cascade (ctx_of alice) bob "28d" "spam" empty_db
     = mute_apply calm cascade (ctx_of alice) bob "28d" "spam"
         {| days := 28; seconds := 0; microseconds := 0 |} empty_db
  /\ firstn 3 (trace_of (mute calm cascade (ctx_of alice) bob "28d" "spam" empty_db))
     = [AddRoles 42 101; MemberSend 42 MuteNotice;
        PoolFetchrow (InsertModerationLog 100 42 1 "mute" (Some "spam") (Some 2419200))].
Proof.
  split; [|split].
  - apply (proj1 (mute_duration_bound calm cascade (ctx_of alice) bob "28d1s" "spam"
                    empty_db {| days := 28; seconds := 1; microseconds := 0 |}
                    eq_refl)).
    vm_compute. discriminate.
  - apply (proj2 (mute_duration_bound calm cascade (ctx_of alice) bob "28d" "spam"
                    empty_db {| days := 28; seconds := 0; microseconds := 0 |}
                    eq_refl)); reflexivity.
  - reflexivity.
Defined.

(** Proof steps shared by the facts below: expose the monadic plumbing of a
    handler, and split on what the world answers to its next call. *)
Ltac unfold_handlers :=
  unfold mute_execute, kick_execute, ban_execute, warn_execute,
    try_member_send, log_moderation_action, get_user, execute, fetchrow,
    pool_fetchrow, pool_execute, schedule_unmute, load_global, add_one, ctx_send;
  unfold try_, bindM, call, emit, get_db, put_db, ret, raise, lift,
    except_, except_Exception;
  cbn.

Ltac world_case :=
  match goal with
  | |- context [add_roles ?w] => destruct (add_roles w) as [[]|] eqn:?
  | |- context [member_kick ?w] => destruct (member_kick w) as [[]|] eqn:?
  | |- context [member_ban ?w] => destruct (member_ban w) as [[]|] eqn:?
  | |- context [member_send ?w ?i] => destruct (member_send w i) as [[]|] eqn:?
  | |- context [pool ?d] => destruct (pool d) eqn:?
  | |- context [pg_failure ?w ?q] => destruct (pg_failure w q) as [[]|] eqn:?
  | |- context [int32 ?v] => destruct (int32 v) eqn:?
  end; cbn.

(** ** What the handlers emit *)

Section HandlerFacts.
Variables (w : World) (bot : Bot).


Lemma set_permissions_all_run channels role db :
  db_of (set_permissions_all w channels role db) = db
  /\ forallb is_preparation (trace_of (set_permissions_all w channels role db)) = true.
Proof.
  induction channels as [|c rest [IHdb IHtr]]; [now split|].
  cbn [set_permissions_all]. unfold bindM, call.
  destruct (set_permissions w c); [now split|].
  destruct (set_permissions_all w rest role db) as [[t d] r].
  unfold db_of, trace_of in *. cbn in *. now split.
Qed.

Lemma create_mute_role_run ctx db :
  db_of (create_mute_role w ctx db) = db
  /\ forallb is_preparation (trace_of (create_mute_role w ctx db)) = true.
Proof.
  unfold create_mute_role, try_, bindM, emit, lift, ctx_send, ret. cbn.
  destruct (create_role w) as [role|e]; cbn.
  2:{ destruct e; now split. }
  pose proof (set_permissions_all_run (text_channels (guild ctx)) (role_id role) db)
    as [Hd1 Ht1].
  destruct (set_permissions_all w (text_channels (guild ctx)) (role_id role) db)
    as [[t1 d1] r1].
  unfold db_of, trace_of in Hd1, Ht1. cbn in Hd1, Ht1. subst d1.
  destruct r1 as [[]|e]; cbn.
  2:{ unfold db_of, trace_of. destruct e; cbn; rewrite ?forallb_app, Ht1; now split. }
  pose proof (set_permissions_all_run (voice_channels (guild ctx)) (role_id role) db)
    as [Hd2 Ht2].
  destruct (set_permissions_all w (voice_channels (guild ctx)) (role_id role) db)
    as [[t2 d2] r2].
  unfold db_of, trace_of in Hd2, Ht2. cbn in Hd2, Ht2. subst d2.
  destruct r2 as [[]|e]; cbn.
  2:{ unfold db_of, trace_of. destruct e; cbn;
      rewrite ?forallb_app, Ht1, Ht2; now split. }
  unfold db_of, trace_of. cbn. rewrite ?forallb_app, Ht1, Ht2. now split.
Qed.

(** The [try] block of a command whose platform call fails: the events up
    to that call, then the report of the matching [except] clause. *)
Lemma mute_execute_platform_fails ctx member duration reason td role db e :
  add_roles w = Some e ->
  mute_execute w bot ctx member duration reason td role db
  = (AddRoles (id member) (role_id role) :: error_report (Mute duration) e,
     db, Return tt).
Proof.
  intros H. unfold mute_execute, try_, bindM, call. rewrite H.
  destruct e; reflexivity.
Qed.

Lemma kick_execute_platform_fails ctx member reason db e :
  member_kick w = Some e ->
  stops_at_failure Kick e db (kick_execute w ctx member reason db).
Proof.
  intros H. unfold stops_at_failure. unfold_handlers. rewrite H.
  world_case; destruct e;
    first [ exists [MemberSend (id member) KickNotice]; split;
            [reflexivity | left; eexists; split; [|reflexivity]; reflexivity]
          | eexists; split; [|right; eexists; reflexivity]; reflexivity ].
Qed.

Lemma ban_execute_platform_fails ctx member reason db e :
  member_ban w = Some e ->
  stops_at_failure Ban e db (ban_execute w ctx member reason db).
Proof.
  intros H. unfold stops_at_failure. unfold_handlers. rewrite H.
  world_case; destruct e;
    first [ exists [MemberSend (id member) BanNotice]; split;
            [reflexivity | left; eexists; split; [|reflexivity]; reflexivity]
          | eexists; split; [|right; eexists; reflexivity]; reflexivity ].
Qed.

Lemma mute_apply_platform_fails ctx member duration reason td db e :
  add_roles w = Some e ->
  stops_at_failure (Mute duration) e db
    (mute_apply w bot ctx member duration reason td db).
Proof.
  intros H. unfold mute_apply.
  destruct (find_mute_role (roles (guild ctx))) as [role|].
  { rewrite (mute_execute_platform_fails _ _ _ _ _ _ _ e) by assumption.
    exists []. split; [reflexivity|]. left. eexists. split; [|reflexivity]. reflexivity. }
  unfold bindM.
  pose proof (create_mute_role_run ctx db) as [Hd Ht].
  destruct (create_mute_role w ctx db) as [[t d] r].
  unfold db_of, trace_of in Hd, Ht. cbn in Hd, Ht. subst d.
  exists t. split; [assumption|].
  destruct r as [[role|]|x].
  - rewrite (mute_execute_platform_fails _ _ _ _ _ _ _ e) by assumption.
    left. eexists. split; [|reflexivity]. reflexivity.
  - right. eexists. unfold ret. now rewrite app_nil_r.
  - right. eexists. reflexivity.
Qed.

Lemma mute_validate_platform_fails ctx member duration reason db e :
  add_roles w = Some e ->
  stops_at_failure (Mute duration) e db
    (mute_validate w bot ctx member duration reason db).
Proof.
  intros H. unfold mute_validate, bindM, lift.
  destruct (parse_duration (max_str_digits w) duration) as [[td|]|x].
  - destruct (negb (timedelta_truthy td)).
    { eexists. split; [|right; eexists; reflexivity]. reflexivity. }
    destruct (total_seconds td >? max_mute_seconds).
    { eexists. split; [|right; eexists; reflexivity]. reflexivity. }
    destruct (mute_apply_platform_fails ctx member duration reason td db e H)
      as (pre & Hpre & [(a & Ha & ->) | (res & ->)]).
    + exists pre. split; [assumption|]. left. exists a. now split.
    + exists pre. split; [assumption|]. right. now exists res.
  - eexists. split; [|right; eexists; reflexivity]. reflexivity.
  - exists []. split; [reflexivity|]. right. eexists. reflexivity.
Qed.

Lemma run_platform_fails c ctx member reason db e :
  platform_outcome w c = Some e ->
  stops_at_failure c e db (run w bot c ctx member reason db).
Proof.
  intros H. destruct (authority_ok bot ctx member) eqn:Hok.
  - rewrite run_proceed by assumption.
    destruct c; cbn in H |- *; [discriminate| | |].
    + now apply mute_validate_platform_fails.
    + now apply kick_execute_platform_fails.
    + now apply ban_execute_platform_fails.
  - destruct (run_not_authorised w bot c ctx member reason db Hok) as [r ->].
    exists [CtxSend r]. split; [reflexivity|]. right. eexists. reflexivity.
Qed.

End HandlerFacts.

Section TraceFacts.

Lemma preparation_inv ev :
  is_preparation ev = true ->
  is_platform_action ev = false /\ is_store_call ev = false
  /\ is_role_removal ev = false /\ is_sleep ev = false.
Proof. destruct ev; cbn; intros H; try discriminate; repeat split. Qed.

Lemma error_report_preparation c e : forallb is_preparation (error_report c e) = true.
Proof. destruct e; reflexivity. Qed.

Lemma error_report_visible c e :
  exists msg, last (error_report c e) = Some (CtxSend (Text msg)).
Proof. destruct e; eexists; reflexivity. Qed.

Lemma no_platform_action_in pre (a : Event) post l :
  forallb is_preparation l = true -> is_platform_action a = true ->
  l = pre ++ a :: post -> False.
Proof.
  intros Hl Ha ->. rewrite forallb_app in Hl.
  apply andb_true_iff in Hl as [_ Hl]. cbn in Hl.
  apply andb_true_iff in Hl as [Hl _].
  apply preparation_inv in Hl as [Hl _]. congruence.
Qed.

(** A trace holds at most one platform action when what precedes and what
    follows it is preparation or reporting. *)
Lemma platform_action_unique p (a : Event) q pre x post :
  forallb is_preparation p = true -> forallb is_preparation q = true ->
  is_platform_action x = true ->
  p ++ a :: q = pre ++ x :: post -> post = q.
Proof.
  intros Hp Hq Hx. revert pre. induction p as [|b p IH]; intros pre Heq.
  - destruct pre as [|y pre]; cbn in Heq.
    + now inversion Heq.
    + inversion Heq; subst. exfalso.
      eapply (no_platform_action_in pre x post); eauto.
  - cbn in Hp. apply andb_true_iff in Hp as [Hb Hp].
    destruct pre as [|y pre]; cbn in Heq.
    + inversion Heq; subst. apply preparation_inv in Hb as [Hb _]. congruence.
    + inversion Heq; subst. eauto.
Qed.

End TraceFacts.

(** C10.  When the platform refuses the side effect of a command (the role
    grant of [mute], the kick, the ban), the store is left as it was and no
    statement reaches it -- [log_moderation_action] is never called --, and
    what follows the refused call is the error report of the [except] clause,
    ending in a reply to the invoker, after which the handler returns. *)
Theorem platform_failure_stops_command w bot c ctx member reason db e :
  platform_outcome w c = Some e ->
  db_of (run w bot c ctx member reason db) = db
  /\ (forall ev, In ev (trace_of (run w bot c ctx member reason db)) ->
                 is_store_call ev = false)
  /\ (forall pre a post,
        trace_of (run w bot c ctx member reason db) = pre ++ a :: post ->
        is_platform_action a = true ->
        post = error_report c e
        /\ (exists msg, last post = Some (CtxSend (Text msg)))
        /\ result_of (run w bot c ctx member reason db) = Return tt).
Proof.
  intros H.
  destruct (run_platform_fails w bot c ctx member reason db e H)
    as (p & Hp & [(a0 & Ha0 & ->) | (res & ->)]); unfold db_of, trace_of, result_of; cbn.
  - split; [reflexivity|]. split.
    + intros ev [Hin | [<- | Hin]]%in_app_or.
      * now apply preparation_inv, (proj1 (forallb_forall _ _) Hp).
      * now destruct a0.
      * now apply preparation_inv,
          (proj1 (forallb_forall _ _) (error_report_preparation c e)).
    + intros pre a post Heq Ha.
      assert (post = error_report c e) as ->.
      { eapply platform_action_unique; eauto using error_report_preparation. }
      split; [reflexivity|]. split; [apply error_report_visible | reflexivity].
  - split; [reflexivity|]. split.
    + intros ev Hin. now apply preparation_inv, (proj1 (forallb_forall _ _) Hp).
    + intros pre a post Heq Ha. exfalso.
      eapply no_platform_action_in; eauto.
Qed.

(** A kick the platform refuses: the target has been notified, the kick is
    attempted, the invoker is told, and nothing is written. *)
Lemma platform_failure_stops_command_witness :
  let r := run kick_refused cascade Kick (ctx_of alice) bob "spam" empty_db in
  trace_of r
  = [MemberSend 42 KickNotice; MemberKick 42;
     CtxSend (Text "I don't have permission to kick this user.")]
  /\ db_of r = empty_db
  /\ (forall ev, In ev (trace_of r) -> is_store_call ev = false)
  /\ ([CtxSend (Text "I don't have permission to kick this user.")]
      = error_report Kick Forbidden
      /\ (exists msg,
            last [CtxSend (Text "I don't have permission to kick this user.")]
            = Some (CtxSend (Text msg)))
      /\ result_of r = Return tt).
Proof.
  cbv zeta. split; [reflexivity|].
  pose proof (platform_failure_stops_command kick_refused cascade Kick (ctx_of alice)
                bob "spam" empty_db Forbidden eq_refl) as (Hdb & Hstore & Hafter).
  split; [exact Hdb|]. split; [exact Hstore|].
  apply (Hafter [MemberSend 42 KickNotice] (MemberKick 42)); reflexivity.
Defined.

(** ** The scheduled unmute *)

Section UnmuteFacts.
Variables (w : World) (bot : Bot).







End UnmuteFacts.



(** C1.  The end-to-end scenario of the specification, a 30-minute mute of
    user 42 with every external call succeeding: the role is granted, the
    audit row is written and the confirmation sent, and then the call to
    [schedule_unmute] raises instead of registering anything -- no sleep, no
    role removal, and a generic error as the last word to the invoker.  The
    removal the function was written for, [unmute_in], is never reached. *)
Theorem mute_registers_no_unmute :
  mute calm cascade (ctx_of alice) bob "30m" "spam" empty_db
  = ([AddRoles 42 101;
      MemberSend 42 MuteNotice;
      PoolFetchrow (InsertModerationLog 100 42 1 "mute" (Some "spam") (Some 1800));
      CtxSend (ResponseEmbed "mute" 42 1 "spam" (Some 1));
      LoggerInfo "Moderation action 'mute'";
      LoggerError "Error muting user" NameError;
      CtxSend (Text "An error occurred while trying to mute the user.")],
     {| pool := true; users := ∅;
        moderation_logs :=
          [{| log_id := 1; log_guild := 100; log_user := 42; log_moderator := 1;
              log_action_type := "mute"; log_reason := Some "spam";
              log_duration := Some 1800 |}];
        next_log_id := 2 |},
     Return tt)
  /\ trace_of (unmute_in calm (guilds cascade) 42 101 1800 empty_db)
     = [RemoveRoles 42 101; MemberSend 42 UnmuteNotice; LoggerInfo "Auto-unmuted user"].
Proof.
  split; reflexivity.
Qed.

(** ** The warning counter *)

Section WarnFacts.
Variables (w : World) (bot : Bot).


End WarnFacts.




(** ** What the commands do to the store *)

Ltac store_case :=
  match goal with
  | |- context [add_roles ?w] => destruct (add_roles w) as [[]|] eqn:?
  | |- context [member_kick ?w] => destruct (member_kick w) as [[]|] eqn:?
  | |- context [member_ban ?w] => destruct (member_ban w) as [[]|] eqn:?
  | |- context [member_send ?w ?i] => destruct (member_send w i) as [[]|] eqn:?
  | |- context [pool ?d] => destruct (pool d) eqn:?
  | |- context [pg_failure ?w ?q] => destruct (pg_failure w q) as [[]|] eqn:?
  | |- context [users ?d !! ?k] => destruct (users d !! k) as [[[?|]]|] eqn:?
  | |- context [int32 ?v] => destruct (int32 v) eqn:?
  end; cbn.

Ltac store_done :=
  unfold store_step, log_step, users_step, db_of; cbn;
  split; [congruence|];
  split;
  [ first [ left; split; reflexivity | right; split; reflexivity ]
  | first [ left; reflexivity
          | right; split; [reflexivity|]; eexists; split;
            [eassumption | reflexivity] ] ].

Section StoreFacts.
Variables (w : World) (bot : Bot).

Lemma warn_execute_store ctx member reason db :
  store_step Warn ctx member reason None db
    (db_of (warn_execute w ctx member reason db)).
Proof.
  unfold_handlers. repeat store_case. all: store_done.
Qed.

Lemma kick_execute_store ctx member reason db :
  store_step Kick ctx member reason None db
    (db_of (kick_execute w ctx member reason db)).
Proof.
  unfold_handlers. repeat store_case. all: store_done.
Qed.

Lemma ban_execute_store ctx member reason db :
  store_step Ban ctx member reason None db
    (db_of (ban_execute w ctx member reason db)).
Proof.
  unfold_handlers. repeat store_case. all: store_done.
Qed.

Lemma mute_execute_store ctx member duration reason td role db :
  store_step (Mute duration) ctx member reason (Some (total_seconds td)) db
    (db_of (mute_execute w bot ctx member duration reason td role db)).
Proof.
  unfold_handlers. repeat store_case. all: store_done.
Qed.

Lemma store_step_refl c ctx member reason d db :
  store_step c ctx member reason d db db.
Proof. repeat split; now left. Qed.

Lemma mute_apply_store ctx member duration reason td db :
  store_step (Mute duration) ctx member reason (Some (total_seconds td)) db
    (db_of (mute_apply w bot ctx member duration reason td db)).
Proof.
  unfold mute_apply.
  destruct (find_mute_role (roles (guild ctx))) as [role|];
    [apply mute_execute_store|].
  unfold bindM.
  pose proof (create_mute_role_run w ctx db) as [Hd _].
  destruct (create_mute_role w ctx db) as [[t d] r].
  unfold db_of in Hd. cbn in Hd. subst d.
  destruct r as [[role|]|x]; try apply store_step_refl.
  pose proof (mute_execute_store ctx member duration reason td role db) as H.
  now destruct (mute_execute w bot ctx member duration reason td role db) as [[t2 d2] r2].
Qed.

(** Whatever the world answers, a command leaves the pool flag alone, adds at
    most its own row to the audit log, and touches the [users] table only to
    bump an existing counter. *)
Lemma run_store c ctx member reason db :
  exists d,
    (moderation_logs (db_of (run w bot c ctx member reason db)) <> moderation_logs db ->
     recorded_duration w c d)
    /\ store_step c ctx member reason d db (db_of (run w bot c ctx member reason db)).
Proof.
  destruct (authority_ok bot ctx member) eqn:Hok.
  2:{ destruct (run_not_authorised w bot c ctx member reason db Hok) as [r ->].
      exists None. split; [intros Hneq; now contradiction Hneq | apply store_step_refl]. }
  rewrite run_proceed by assumption.
  destruct c as [|duration| |]; cbn [proceed].
  - exists None. split; [reflexivity | apply warn_execute_store].
  - unfold mute_validate, bindM, lift.
    destruct (parse_duration (max_str_digits w) duration) as [[td|]|x] eqn:Hp;
      try (exists None; split; [intros Hneq; now contradiction Hneq | apply store_step_refl]).
    destruct (timedelta_truthy td) eqn:Htruthy; cbn [negb];
      try (exists None; split; [intros Hneq; now contradiction Hneq | apply store_step_refl]).
    unfold max_mute_seconds.
    destruct (Z.gtb_spec (total_seconds td) 2419200);
      try (exists None; split; [intros Hneq; now contradiction Hneq | apply store_step_refl]).
    exists (Some (total_seconds td)).
    pose proof (mute_apply_store ctx member duration reason td db) as Hst.
    destruct (mute_apply w bot ctx member duration reason td db) as [[t d] r].
    split; [|exact Hst].
    intros _. exists td.
    split; [assumption|]. split; [assumption|]. split; [lia | reflexivity].
  - exists None. split; [reflexivity | apply kick_execute_store].
  - exists None. split; [reflexivity | apply ban_execute_store].
Qed.

End StoreFacts.

(** X1.  Whatever the platform and the store answer, a command leaves the
    audit log as it was or appends exactly one row to it: the row numbered by
    the sequence, naming the guild, the target, the moderator, the command and
    the reason, with the parsed duration for [mute] and none otherwise. *)
Theorem command_appends_at_most_its_row w bot c ctx member reason db :
  (moderation_logs (db_of (run w bot c ctx member reason db)) = moderation_logs db
   /\ next_log_id (db_of (run w bot c ctx member reason db)) = next_log_id db)
  \/ (exists d,
        recorded_duration w c d
        /\ moderation_logs (db_of (run w bot c ctx member reason db))
           = moderation_logs db ++ [audit_row c ctx member reason d db]
        /\ next_log_id (db_of (run w bot c ctx member reason db)) = next_log_id db + 1).
Proof.
  destruct (run_store w bot c ctx member reason db) as (d & Hd & _ & Hlog & _).
  destruct Hlog as [Hsame | [Happ Hnext]]; [now left|].
  right. exists d. split; [|now split].
  apply Hd. rewrite Happ. intros Heq.
  apply (f_equal (@List.length LogRow)) in Heq.
  rewrite length_app in Heq. cbn in Heq. lia.
Qed.

(** X3.  No command creates or deletes a user record: the keys of the
    [users] table are the same before and after, every record other than the
    target's is unchanged, and only [warn] changes anything at all. *)
Theorem commands_keep_user_records w bot c ctx member reason db :
  dom (users (db_of (run w bot c ctx member reason db))) = dom (users db)
  /\ (forall k, k <> id member ->
        users (db_of (run w bot c ctx member reason db)) !! k = users db !! k)
  /\ (c <> Warn -> users (db_of (run w bot c ctx member reason db)) = users db).
Proof.
  destruct (run_store w bot c ctx member reason db) as (d & _ & _ & _ & Husers).
  destruct Husers as [-> | (-> & n & _ & ->)].
  - repeat split; congruence.
  - split; [apply dom_alter_L|]. split; [|congruence].
    intros k Hk. now apply lookup_alter_ne.
Qed.

(** ** Failures around the platform call *)

(** X4.  A kick or ban whose audit insert fails is not undone: the member has
    been notified and removed, the store holds no trace of it, and the invoker
    only sees the error report.  The same holds for [warn], which has no
    platform call.  A disconnected pool fails before any statement is sent. *)
Theorem action_stands_when_audit_fails w bot c ctx member reason db :
  untimed c = true ->
  authority_ok bot ctx member = true ->
  delivers w member = true ->
  platform_outcome w c = None ->
  (pool db = false ->
   run w bot c ctx member reason db
   = (MemberSend (id member) (notice_of c) :: platform_call c member
      ++ report_of c RuntimeError, db, Return tt))
  /\ (forall e,
        pool db = true ->
        pg_failure w (audit_insert c ctx member reason None) = Some e ->
        run w bot c ctx member reason db
        = (MemberSend (id member) (notice_of c) :: platform_call c member
           ++ PoolFetchrow (audit_insert c ctx member reason None)
              :: LoggerError "Database fetchrow error" e :: report_of c e,
           db, Return tt)).
Proof.
  intros Hc Hok Hdm Hact. rewrite run_proceed by assumption.
  unfold delivers in Hdm.
  split; [intros Hpool | intros e Hpool Hpg]; unfold audit_insert in *;
    destruct c; try discriminate; cbn in Hact; cbn [proceed verb];
    try (cbn in Hpg);
    unfold_handlers; rewrite ?Hact; cbn;
    destruct (member_send w (id member)) as [[]|]; try discriminate; cbn;
    rewrite ?Hact; cbn; rewrite Hpool; cbn; rewrite ?Hpg; cbn;
    destruct db; cbn in *; subst; try reflexivity;
    destruct e; reflexivity.
Qed.

Lemma action_stands_when_audit_fails_witness :
  run calm cascade Ban (ctx_of alice) bob "spam"
    {| pool := false; users := ∅; moderation_logs := []; next_log_id := 1 |}
  = ([MemberSend 42 BanNotice; MemberBan 42;
      LoggerError "Error banning user" RuntimeError;
      CtxSend (Text "An error occurred while trying to ban the user.")],
     {| pool := false; users := ∅; moderation_logs := []; next_log_id := 1 |},
     Return tt).
Proof.
  apply (proj1 (action_stands_when_audit_fails calm cascade Ban (ctx_of alice) bob
                  "spam" {| pool := false; users := ∅; moderation_logs := [];
                            next_log_id := 1 |}
                  eq_refl eq_refl eq_refl eq_refl)).
  reflexivity.
Defined.

(** X5.  A direct message that fails with anything but [Forbidden] stops
    [warn], [kick] and [ban] before they act: the target is not kicked or
    banned, nothing reaches the store, and the invoker gets the generic
    error. *)
Theorem failed_notice_aborts_command w bot c ctx member reason db e :
  untimed c = true ->
  authority_ok bot ctx member = true ->
  member_send w (id member) = Some e -> e <> Forbidden ->
  run w bot c ctx member reason db
  = ([MemberSend (id member) (notice_of c);
      LoggerError ("Error " ++ gerund c ++ " user") e;
      generic_error c], db, Return tt).
Proof.
  intros Hc Hok Hdm He. rewrite run_proceed by assumption.
  destruct c; try discriminate; cbn [proceed];
    unfold_handlers; rewrite Hdm; cbn; destruct e; try reflexivity;
    now contradiction He.
Qed.

Lemma failed_notice_aborts_command_witness :
  run dm_broken cascade Kick (ctx_of alice) bob "spam" empty_db
  = ([MemberSend 42 KickNotice;
      LoggerError "Error kicking user" HTTPException;
      CtxSend (Text "An error occurred while trying to kick the user.")],
     empty_db, Return tt).
Proof.
  apply (failed_notice_aborts_command dm_broken cascade Kick (ctx_of alice) bob
           "spam" empty_db HTTPException eq_refl eq_refl eq_refl).
  discriminate.
Defined.

Section NoticeFacts.
Variables (w : World) (bot : Bot).

Lemma set_permissions_all_dm channels role db :
  set_permissions_all (dm_delivered w) channels role db
  = set_permissions_all w channels role db.
Proof.
  induction channels as [|c rest IH]; [reflexivity|].
  cbn [set_permissions_all]. unfold bindM, call. cbn [set_permissions dm_delivered].
  destruct (set_permissions w c); [reflexivity|]. now rewrite IH.
Qed.

Lemma create_mute_role_dm ctx db :
  create_mute_role (dm_delivered w) ctx db = create_mute_role w ctx db.
Proof.
  unfold create_mute_role, try_, bindM, emit, lift, ctx_send, ret.
  cbn [create_role dm_delivered].
  destruct (create_role w) as [role|e]; [|reflexivity].
  now rewrite !set_permissions_all_dm.
Qed.

Lemma mute_execute_dm ctx member duration reason td role db :
  member_send w (id member) = Some Forbidden ->
  mute_execute w bot ctx member duration reason td role db
  = mute_execute (dm_delivered w) bot ctx member duration reason td role db.
Proof.
  intros H. unfold_handlers. rewrite H. cbn.
  destruct (add_roles w) as [[]|]; reflexivity.
Qed.

Lemma proceed_dm c ctx member reason db :
  member_send w (id member) = Some Forbidden ->
  proceed w bot c ctx member reason db
  = proceed (dm_delivered w) bot c ctx member reason db.
Proof.
  intros H. destruct c as [|duration| |]; cbn [proceed].
  - unfold_handlers. now rewrite H.
  - unfold mute_validate, bindM, lift. cbn [max_str_digits dm_delivered].
    destruct (parse_duration (max_str_digits w) duration) as [[td|]|x];
      try reflexivity.
    destruct (negb (timedelta_truthy td)); [reflexivity|].
    destruct (total_seconds td >? max_mute_seconds); [reflexivity|].
    unfold mute_apply.
    destruct (find_mute_role (roles (guild ctx))) as [role|].
    + now rewrite mute_execute_dm.
    + unfold bindM. rewrite create_mute_role_dm.
      destruct (create_mute_role w ctx db) as [[t d] [[role|]|x]]; try reflexivity.
      now rewrite mute_execute_dm.
  - unfold_handlers. now rewrite H.
  - unfold_handlers. now rewrite H.
Qed.

End NoticeFacts.

Lemma rejection_ignores_world w w' bot c ctx member reason db :
  authority_ok bot ctx member = false ->
  run w bot c ctx member reason db = run w' bot c ctx member reason db.
Proof.
  intros H.
  destruct (Z.eq_dec (id member) (id (author ctx))) as [Hs|Hs].
  { now rewrite !run_self. }
  destruct (Z.eq_dec (id member) (user_id bot)) as [Hb|Hb].
  { now rewrite !run_bot. }
  unfold authority_ok in H.
  apply Z.eqb_neq in Hs as Hs', Hb as Hb'. rewrite Hs', Hb' in H. cbn in H.
  apply orb_false_iff in H as [Hr%Z.ltb_ge Ho].
  now rewrite !run_rank.
Qed.

(** X6.  A target who refuses direct messages changes nothing: for all four
    commands, the run in which the notice raises [Forbidden] is, event for
    event and in its effect on the store, the run in which it is delivered. *)
Theorem refused_notice_is_ignored w bot c ctx member reason db :
  member_send w (id member) = Some Forbidden ->
  run w bot c ctx member reason db
  = run (dm_delivered w) bot c ctx member reason db.
Proof.
  intros H. destruct (authority_ok bot ctx member) eqn:Hok.
  - rewrite !run_proceed by assumption. now apply proceed_dm.
  - now apply rejection_ignores_world.
Qed.

Lemma refused_notice_is_ignored_witness :
  let shy := {| max_str_digits := 4300;
                member_send := fun _ => Some Forbidden;
                add_roles := None; remove_roles := None;
                member_kick := None; member_ban := None;
                create_role := Return muted;
                set_permissions := fun _ => None;
                pg_failure := fun _ => None |} in
  run shy cascade Kick (ctx_of alice) bob "spam" empty_db
  = run (dm_delivered shy) cascade Kick (ctx_of alice) bob "spam" empty_db
  /\ trace_of (run shy cascade Kick (ctx_of alice) bob "spam" empty_db)
     = [MemberSend 42 KickNotice; MemberKick 42;
        PoolFetchrow (InsertModerationLog 100 42 1 "kick" (Some "spam") None);
        CtxSend (ResponseEmbed "kick" 42 1 "spam" (Some 1));
        LoggerInfo "Moderation action 'kick'"].
Proof.
  cbv zeta. split; [|reflexivity].
  apply refused_notice_is_ignored. reflexivity.
Defined.

(** ** The warning counter when the store misbehaves *)

(** X7.  The two writes of [warn] are not one transaction: when the audit row
    has been inserted and the look-up or the update of the counter then fails,
    the row stays, the counter is as it was, and the invoker is sent the
    generic error instead of the confirmation. *)
Theorem warn_row_survives_counter_failure w bot ctx member reason db e :
  authority_ok bot ctx member = true ->
  delivers w member = true ->
  pool db = true ->
  pg_failure w (audit_insert Warn ctx member reason None) = None ->
  (pg_failure w (SelectUser (id member)) = Some e ->
   warn w bot ctx member reason db
   = ([MemberSend (id member) WarnNotice;
       PoolFetchrow (audit_insert Warn ctx member reason None);
       PoolFetchrow (SelectUser (id member));
       LoggerError "Database fetchrow error" e;
       LoggerError "Error warning user" e;
       generic_error Warn],
      append_row db (audit_row Warn ctx member reason None db), Return tt))
  /\ (forall n,
        pg_failure w (SelectUser (id member)) = None ->
        users db !! id member = Some {| warnings := Some n |} ->
        pg_failure w (UpdateWarnings (n + 1) (id member)) = Some e ->
        warn w bot ctx member reason db
        = ([MemberSend (id member) WarnNotice;
            PoolFetchrow (audit_insert Warn ctx member reason None);
            PoolFetchrow (SelectUser (id member));
            PoolExecute (UpdateWarnings (n + 1) (id member));
            LoggerError "Database execute error" e;
            LoggerError "Error warning user" e;
            generic_error Warn],
           append_row db (audit_row Warn ctx member reason None db), Return tt)).
Proof.
  intros Hok Hdm Hpool Hins.
  change (warn w bot ctx member reason db)
    with (run w bot Warn ctx member reason db).
  rewrite run_proceed by assumption. cbn [proceed].
  unfold delivers in Hdm. unfold audit_insert in *. cbn [verb] in Hins.
  unfold append_row, audit_row.
  split; [intros Hsel | intros n Hsel Hrow Hupd];
    unfold_handlers;
    destruct (member_send w (id member)) as [[]|]; try discriminate; cbn;
    rewrite Hpool; cbn; rewrite Hins; cbn; rewrite Hpool; cbn; rewrite Hsel; cbn;
    rewrite ?Hrow; cbn; rewrite ?Hpool; cbn; rewrite ?Hupd; cbn;
    reflexivity.
Qed.

Lemma warn_row_survives_counter_failure_witness :
  let r := warn select_fails cascade (ctx_of alice) carol "spam" carol_known in
  map log_action_type (moderation_logs (db_of r)) = ["warn"]
  /\ users (db_of r) !! 7 = Some {| warnings := Some 0 |}
  /\ last (trace_of r)
     = Some (CtxSend (Text "An error occurred while trying to warn the user.")).
Proof.
  cbv zeta.
  rewrite (proj1 (warn_row_survives_counter_failure select_fails cascade
                    (ctx_of alice) carol "spam" carol_known PostgresError
                    eq_refl eq_refl eq_refl eq_refl)
             eq_refl).
  repeat split.
Defined.

(** X8.  A counter the code cannot increment blocks every later warn of that
    user: with the column NULL the sum raises [TypeError], with the column at
    2147483647 the update is refused with [DataError]; either way the audit
    row is written, the counter keeps its value and the invoker gets the
    generic error. *)
Theorem warn_stuck_counter w bot ctx member reason db :
  authority_ok bot ctx member = true ->
  delivers w member = true ->
  pool db = true ->
  (forall q, pg_failure w q = None) ->
  (users db !! id member = Some {| warnings := None |} ->
   warn w bot ctx member reason db
   = ([MemberSend (id member) WarnNotice;
       PoolFetchrow (audit_insert Warn ctx member reason None);
       PoolFetchrow (SelectUser (id member));
       LoggerError "Error warning user" TypeError;
       generic_error Warn],
      append_row db (audit_row Warn ctx member reason None db), Return tt))
  /\ (users db !! id member = Some {| warnings := Some 2147483647 |} ->
      warn w bot ctx member reason db
      = ([MemberSend (id member) WarnNotice;
          PoolFetchrow (audit_insert Warn ctx member reason None);
          PoolFetchrow (SelectUser (id member));
          PoolExecute (UpdateWarnings 2147483648 (id member));
          LoggerError "Database execute error" DataError;
          LoggerError "Error warning user" DataError;
          generic_error Warn],
         append_row db (audit_row Warn ctx member reason None db), Return tt)).
Proof.
  intros Hok Hdm Hpool Hpg.
  change (warn w bot ctx member reason db)
    with (run w bot Warn ctx member reason db).
  rewrite run_proceed by assumption. cbn [proceed].
  unfold delivers in Hdm. unfold audit_insert, append_row, audit_row.
  split; intros Hrow;
    unfold_handlers;
    destruct (member_send w (id member)) as [[]|]; try discriminate; cbn;
    rewrite Hpool; cbn; rewrite Hpg; cbn; rewrite Hpool; cbn; rewrite Hpg; cbn;
    rewrite Hrow; cbn; rewrite ?Hpool; cbn; rewrite ?Hpg; cbn;
    reflexivity.
Qed.

Lemma warn_stuck_counter_witness :
  let r := warn calm cascade (ctx_of alice) carol "spam" carol_maxed in
  users (db_of r) !! 7 = Some {| warnings := Some 2147483647 |}
  /\ map log_action_type (moderation_logs (db_of r)) = ["warn"]
  /\ last (trace_of r)
     = Some (CtxSend (Text "An error occurred while trying to warn the user.")).
Proof.
  cbv zeta.
  rewrite (proj2 (warn_stuck_counter calm cascade (ctx_of alice) carol "spam"
                    carol_maxed eq_refl eq_refl eq_refl (fun _ => eq_refl)) eq_refl).
  repeat split.
Defined.

(** ** The mute role *)

Section MuteRoleFacts.

Lemma prefix_app_l (a b h : string) :
  String.prefix (a ++ b) h = true -> String.prefix a h = true.
Proof.
  revert h. induction a as [|x a IH]; intros h; [now destruct h|].
  rewrite append_cons. destruct h as [|y h]; cbn; [discriminate|].
  destruct (ascii_dec x y); [apply IH | discriminate].
Qed.

Lemma contains_weaken (a b h : string) :
  contains (a ++ b) h = true -> contains a h = true.
Proof.
  induction h as [|y h IH]; cbn [contains].
  - rewrite !orb_false_r. apply prefix_app_l.
  - intros [H | H]%orb_true_iff; apply orb_true_iff;
      [left; now apply prefix_app_l with b | right; now apply IH].
Qed.

Lemma prefix_self (n b : string) : String.prefix n (n ++ b) = true.
Proof.
  induction n as [|x n IH]; [now destruct b|].
  rewrite append_cons. cbn. now destruct (ascii_dec x x).
Qed.

Lemma contains_infix (n a b : string) : contains n (a ++ n ++ b) = true.
Proof.
  induction a as [|x a IH].
  - rewrite append_nil. destruct (n ++ b)%string eqn:E; cbn [contains];
      rewrite <- E, prefix_self; reflexivity.
  - rewrite append_cons. cbn [contains]. rewrite IH. apply orb_true_r.
Qed.

End MuteRoleFacts.

(** X9.  The mute role is the first role of the guild whose lower-cased name
    has "mute" anywhere in it: the second test, for "muted", never changes the
    choice, and a role such as "Commuters" listed earlier is taken in place of
    "Muted". *)
Theorem mute_role_is_first_containing_mute (rs : list Role) :
  find_mute_role rs = find (fun r => contains "mute" (lower (role_name r))) rs
  /\ (forall pre r rest a b,
        rs = pre ++ r :: rest ->
        (forall p, In p pre -> contains "mute" (lower (role_name p)) = false) ->
        lower (role_name r) = (a ++ "mute" ++ b)%string ->
        find_mute_role rs = Some r).
Proof.
  assert (find_mute_role rs
          = find (fun r => contains "mute" (lower (role_name r))) rs) as Heq.
  { unfold find_mute_role. induction rs as [|r rs IH]; [reflexivity|].
    cbn [find]. rewrite IH.
    destruct (contains "mute" (lower (role_name r))) eqn:E1; [reflexivity|].
    destruct (contains "muted" (lower (role_name r))) eqn:E2; [|reflexivity].
    apply (contains_weaken "mute" "d") in E2. congruence. }
  split; [exact Heq|].
  intros pre r rest a b -> Hpre Hname. rewrite Heq. clear Heq.
  induction pre as [|p pre IH]; cbn [app find].
  - now rewrite Hname, contains_infix.
  - rewrite (Hpre p) by now left. apply IH. intros q Hq. apply Hpre. now right.
Qed.

Lemma mute_role_is_first_containing_mute_witness :
  find_mute_role (roles suburb) = Some commuters
  /\ trace_of (mute calm cascade {| author := alice; guild := suburb |} bob
                 "30m" "spam" empty_db) !! 0%nat
     = Some (AddRoles 42 107).
Proof.
  split; [|reflexivity].
  apply (proj2 (mute_role_is_first_containing_mute (roles suburb))
           [everyone] commuters [muted; regular; moderator] "com" "rs")%string.
  - reflexivity.
  - intros p [<- | []]. reflexivity.
  - reflexivity.
Defined.

Section RoleCreationFacts.
Variables (w : World).

Lemma set_permissions_all_return channels role db :
  result_of (set_permissions_all w channels role db) = Return tt ->
  forall c, In c channels -> set_permissions w c = None.
Proof.
  induction channels as [|c0 rest IH]; [intros _ c []|].
  cbn [set_permissions_all]. unfold bindM, call.
  destruct (set_permissions w c0) eqn:E0; [discriminate|].
  destruct (set_permissions_all w rest role db) as [[t d] r] eqn:Er.
  unfold result_of in *. cbn in *. intros -> c [<- | Hin]; [assumption|].
  now apply IH.
Qed.

(** With no mute role in the guild and a channel that refuses the override,
    [create_mute_role] creates the role, stops at the first refusal, tells the
    invoker and returns nothing to mute with. *)
Lemma create_mute_role_aborts ctx db role ch e :
  create_role w = Return role ->
  In ch (text_channels (guild ctx) ++ voice_channels (guild ctx)) ->
  set_permissions w ch = Some e ->
  exists t,
    create_mute_role w ctx db
    = (CreateRole (guild_id (guild ctx)) "Muted" :: t, db, Return None)
    /\ forallb is_preparation t = true
    /\ (last t = Some (CtxSend (Text "I don't have permission to create a mute role."))
        \/ last t = Some (CtxSend (Text "Error creating mute role."))).
Proof.
  intros Hrole Hin Hch.
  unfold create_mute_role, try_, bindM, emit, lift, ctx_send, ret. cbn.
  rewrite Hrole. cbn.
  pose proof (set_permissions_all_run w (text_channels (guild ctx)) (role_id role) db)
    as [Hd1 Ht1].
  pose proof (set_permissions_all_return (text_channels (guild ctx)) (role_id role) db)
    as Hr1.
  destruct (set_permissions_all w (text_channels (guild ctx)) (role_id role) db)
    as [[t1 d1] r1].
  unfold db_of, trace_of, result_of in Hd1, Ht1, Hr1. cbn in Hd1, Ht1, Hr1. subst d1.
  destruct r1 as [[]|x]; cbn.
  2:{ destruct x; eexists; (split; [reflexivity|]);
      rewrite ?forallb_app, ?Ht1; (split; [reflexivity|]);
      rewrite ?last_snoc; try (now left);
      right; change (?a :: ?b :: nil) with ([a] ++ [b]);
      now rewrite ?app_assoc, last_snoc. }
  pose proof (set_permissions_all_run w (voice_channels (guild ctx)) (role_id role) db)
    as [Hd2 Ht2].
  pose proof (set_permissions_all_return (voice_channels (guild ctx)) (role_id role) db)
    as Hr2.
  destruct (set_permissions_all w (voice_channels (guild ctx)) (role_id role) db)
    as [[t2 d2] r2].
  unfold db_of, trace_of, result_of in Hd2, Ht2, Hr2. cbn in Hd2, Ht2, Hr2. subst d2.
  destruct r2 as [[]|x]; cbn.
  { exfalso. apply in_app_or in Hin as [Hin | Hin].
    - rewrite (Hr1 eq_refl ch Hin) in Hch. discriminate.
    - rewrite (Hr2 eq_refl ch Hin) in Hch. discriminate. }
  destruct x; eexists; (split; [reflexivity|]);
    rewrite ?forallb_app, ?Ht1, ?Ht2; (split; [reflexivity|]);
    rewrite ?app_assoc, ?last_snoc; try (now left);
    right; change (?a :: ?b :: nil) with ([a] ++ [b]);
    now rewrite ?app_assoc, last_snoc.
Qed.

End RoleCreationFacts.

(** X10.  When the guild has no mute role and some channel refuses the
    permission override, the mute is abandoned after the role was created:
    the run starts with the role creation, grants no role, sends nothing to
    the store, and ends by telling the invoker that the role could not be
    created. *)
Theorem mute_abandoned_when_override_fails
    w bot ctx member duration reason td db role ch e :
  find_mute_role (roles (guild ctx)) = None ->
  create_role w = Return role ->
  In ch (text_channels (guild ctx) ++ voice_channels (guild ctx)) ->
  set_permissions w ch = Some e ->
  exists t,
    mute_apply w bot ctx member duration reason td db
    = (CreateRole (guild_id (guild ctx)) "Muted" :: t, db, Return tt)
    /\ (forall ev, In ev t ->
          is_platform_action ev = false /\ is_store_call ev = false)
    /\ (last t = Some (CtxSend (Text "I don't have permission to create a mute role."))
        \/ last t = Some (CtxSend (Text "Error creating mute role."))).
Proof.
  intros Hfind Hrole Hin Hch. unfold mute_apply. rewrite Hfind. unfold bindM.
  destruct (create_mute_role_aborts w ctx db role ch e Hrole Hin Hch)
    as (t & -> & Hprep & Hlast).
  exists t. unfold ret. rewrite app_nil_r. split; [reflexivity|]. split; [|exact Hlast].
  intros ev Hev. apply (proj1 (forallb_forall _ _) Hprep) in Hev.
  apply preparation_inv in Hev. tauto.
Qed.

Lemma mute_abandoned_when_override_fails_witness :
  mute override_refused cascade {| author := alice; guild := bare |} bob
    "30m" "spam" empty_db
  = ([CreateRole 300 "Muted"; SetPermissions 11 101; SetPermissions 12 101;
      CtxSend (Text "I don't have permission to create a mute role.")],
     empty_db, Return tt)
  /\ exists t,
       mute_apply override_refused cascade {| author := alice; guild := bare |} bob
         "30m" "spam" {| days := 0; seconds := 1800; microseconds := 0 |} empty_db
       = (CreateRole 300 "Muted" :: t, empty_db, Return tt)
       /\ (forall ev, In ev t ->
             is_platform_action ev = false /\ is_store_call ev = false)
       /\ (last t
           = Some (CtxSend (Text "I don't have permission to create a mute role."))
           \/ last t = Some (CtxSend (Text "Error creating mute role."))).
Proof.
  split; [reflexivity|].
  apply (mute_abandoned_when_override_fails override_refused cascade
           {| author := alice; guild := bare |} bob "30m" "spam"
           {| days := 0; seconds := 1800; microseconds := 0 |} empty_db
           muted 12 Forbidden).
  - reflexivity.
  - reflexivity.
  - cbn. tauto.
  - reflexivity.
Defined.

(** ** After the sleep *)

(** X11.  The loop that follows the sleep in [schedule_unmute] does nothing
    at all -- no call, no log line, no error -- when in every guild of the bot
    the user is no longer a member or the role no longer exists. *)
Theorem unmute_skips_absent_member w (gs : list Guild) user role secs db :
  (forall g, In g gs ->
     guild_get_member g user = None \/ utils_get_role (roles g) role = None) ->
  unmute_in w gs user role secs db = ([], db, Return tt).
Proof.
  induction gs as [|g gs IH]; intros H; [reflexivity|].
  cbn [unmute_in].
  destruct (H g (or_introl eq_refl)) as [-> | Hrole].
  - apply IH. intros g' Hg'. apply H. now right.
  - destruct (guild_get_member g user); rewrite ?Hrole;
      apply IH; intros g' Hg'; apply H; now right.
Qed.

Lemma unmute_skips_absent_member_witness :
  unmute_in calm [server; bare] 555 101 1800 empty_db = ([], empty_db, Return tt).
Proof.
  apply unmute_skips_absent_member.
  intros g [<- | [<- | []]]; left; reflexivity.
Defined.

(** ** A mute in which every call succeeds *)

(** X12.  When the authority checks pass, the duration parses to between 1
    and 2,419,200 seconds, the guild has a mute role and every external call
    succeeds, [mute] grants the role, notifies the target, writes the audit row
    with the parsed seconds, confirms with that row's id -- and then reports
    the generic error, because scheduling the unmute raises [NameError]. *)
Theorem mute_confirms_then_reports_error
    w bot ctx member duration reason db td role :
  authority_ok bot ctx member = true ->
  parse_duration (max_str_digits w) duration = Return (Some td) ->
  0 < total_seconds td <= 2419200 ->
  find_mute_role (roles (guild ctx)) = Some role ->
  add_roles w = None ->
  delivers w member = true ->
  pool db = true ->
  pg_failure w (audit_insert (Mute duration) ctx member reason
                  (Some (total_seconds td))) = None ->
  mute w bot ctx member duration reason db
  = ([AddRoles (id member) (role_id role);
      MemberSend (id member) MuteNotice;
      PoolFetchrow (audit_insert (Mute duration) ctx member reason
                      (Some (total_seconds td)));
      CtxSend (ResponseEmbed "mute" (id member) (id (author ctx)) reason
                 (Some (next_log_id db)));
      LoggerInfo "Moderation action 'mute'";
      LoggerError "Error muting user" NameError;
      generic_error (Mute duration)],
     append_row db (audit_row (Mute duration) ctx member reason
                      (Some (total_seconds td)) db),
     Return tt).
Proof.
  intros Hok Hp Hrange Hfind Hadd Hdm Hpool Hins.
  change (mute w bot ctx member duration reason db)
    with (run w bot (Mute duration) ctx member reason db).
  rewrite run_proceed by assumption. cbn [proceed].
  rewrite (mute_validate_in_bound w bot ctx member duration reason db td)
    by (assumption || lia).
  unfold mute_apply. rewrite Hfind.
  unfold delivers in Hdm. unfold audit_insert, append_row, audit_row in *.
  cbn [verb] in *.
  assert (int32 (total_seconds td) = true) as Hint.
  { unfold int32. apply andb_true_iff. split; apply Z.leb_le; lia. }
  unfold_handlers. rewrite Hadd. cbn.
  destruct (member_send w (id member)) as [[]|]; try discriminate; cbn;
    rewrite Hpool; cbn; rewrite Hins; cbn; rewrite Hint; cbn;
    rewrite ?Hpool; reflexivity.
Qed.

Lemma mute_confirms_then_reports_error_witness :
  mute calm cascade (ctx_of alice) bob "2h30m" "spam" empty_db
  = ([AddRoles 42 101;
      MemberSend 42 MuteNotice;
      PoolFetchrow (InsertModerationLog 100 42 1 "mute" (Some "spam") (Some 9000));
      CtxSend (ResponseEmbed "mute" 42 1 "spam" (Some 1));
      LoggerInfo "Moderation action 'mute'";
      LoggerError "Error muting user" NameError;
      CtxSend (Text "An error occurred while trying to mute the user.")],
     append_row empty_db
       {| log_id := 1; log_guild := 100; log_user := 42; log_moderator := 1;
          log_action_type := "mute"; log_reason := Some "spam";
          log_duration := Some 9000 |},
     Return tt).
Proof.
  apply (mute_confirms_then_reports_error calm cascade (ctx_of alice) bob "2h30m"
           "spam" empty_db {| days := 0; seconds := 9000; microseconds := 0 |} muted);
    try reflexivity.
  vm_compute. split; [reflexivity | discriminate].
Defined.

(** ** Text after the last pair *)

Section TrailingTextFacts.

Lemma lower_char_plain c :
  is_digit c = false -> is_space c = false ->
  is_digit (lower_char c) = false /\ is_space (lower_char c) = false.
Proof.
  intros Hd Hs. unfold lower_char.
  destruct ((65 <=? code c)%N && (code c <=? 90)%N) eqn:E; [|now split].
  apply andb_true_iff in E as [Hlo%N.leb_le Hhi%N.leb_le].
  assert (code (ascii_of_N (code c + 32)) = (code c + 32)%N) as Hcode.
  { unfold code in *. apply N_ascii_embedding. lia. }
  unfold is_digit, is_space. rewrite Hcode.
  split.
  - apply andb_false_iff. right. apply N.leb_gt. lia.
  - apply orb_false_iff. split; apply andb_false_iff; right; apply N.leb_gt; lia.
Qed.

Lemma rstrip_keeps_head c j :
  is_space c = false -> exists j', rstrip (String c j) = String c j'.
Proof.
  intros Hc. cbn [rstrip]. destruct (rstrip j); [|eauto].
  rewrite Hc. eauto.
Qed.

Lemma rstrip_app_nonempty b x c j :
  rstrip x = String c j -> rstrip (b ++ x) = (b ++ String c j)%string.
Proof.
  intros Hx. induction b as [|a b IH]; [now rewrite !append_nil|].
  rewrite !append_cons. cbn [rstrip]. rewrite IH.
  now destruct (b ++ String c j)%string eqn:E; [destruct b; discriminate|].
Qed.

Lemma strip_tail ws b c j :
  all_chars is_space ws = true -> all_chars not_space b = true ->
  is_space c = false ->
  exists j', strip (ws ++ b ++ String c j) = (b ++ String c j')%string.
Proof.
  intros Hws Hb Hc. unfold strip. rewrite lstrip_spaces by assumption.
  destruct (rstrip_keeps_head c j Hc) as [j' Hj]. exists j'.
  assert (lstrip (b ++ String c j) = (b ++ String c j)%string) as ->.
  { destruct b as [|a b]; [rewrite append_nil; cbn; now rewrite Hc|].
    rewrite append_cons. cbn [lstrip]. cbn in Hb.
    apply andb_true_iff in Hb as [Ha _]. unfold not_space in Ha.
    apply negb_true_iff in Ha. now rewrite Ha. }
  now apply rstrip_app_nonempty.
Qed.

Lemma match_group_plain u c j :
  is_digit c = false -> match_group u (String c j) = (None, String c j).
Proof. intros Hc. unfold match_group. cbn [span_digits]. now rewrite Hc. Qed.

Lemma match_group_skip_tail u l c j :
  later_groups u l -> is_digit c = false ->
  match_group u (canonical_all l ++ String c j)
  = (None, (canonical_all l ++ String c j)%string).
Proof.
  intros Hl Hc.
  induction Hl as [|[u' g] l (Hne & Hd & Hok) _ IH];
    [rewrite append_nil; now apply match_group_plain|].
  cbn [canonical_all fst snd] in *. destruct g as [[ds x]|];
    [|cbn [canonical]; rewrite append_nil; exact IH].
  apply group_ok_inv in Hok as (Hds0 & Hds & _). cbn [canonical].
  rewrite !string_app_assoc, append_cons, append_nil. unfold match_group.
  rewrite span_digits_run by assumption.
  destruct ds as [|y ds]; [congruence|].
  destruct (Ascii.eqb_spec u' u); [contradiction | reflexivity].
Qed.

Lemma match_group_step_tail u g l c j :
  is_digit u = false -> group_ok u g = true -> later_groups u l ->
  is_digit c = false ->
  match_group u ((canonical u g ++ canonical_all l) ++ String c j)
  = (digits_of g, (canonical_all l ++ String c j)%string).
Proof.
  intros Hu Hok Hl Hc. destruct g as [[ds x]|]; cbn [canonical digits_of].
  - apply group_ok_inv in Hok as (Hds0 & Hds & _).
    rewrite !string_app_assoc, append_cons, append_nil. unfold match_group.
    rewrite span_digits_run by assumption.
    destruct ds as [|y ds]; [congruence|].
    now rewrite Ascii.eqb_refl.
  - rewrite append_nil. now apply match_group_skip_tail.
Qed.

Lemma re_match_pattern_tail gd gh gm gs c j :
  group_ok "d" gd = true -> group_ok "h" gh = true ->
  group_ok "m" gm = true -> group_ok "s" gs = true ->
  is_digit c = false ->
  re_match_pattern
    (canonical_all [("d", gd); ("h", gh); ("m", gm); ("s", gs)]%char ++ String c j)
  = Some {| group1 := digits_of gd; group2 := digits_of gh;
            group3 := digits_of gm; group4 := digits_of gs |}.
Proof.
  intros Hd Hh Hm Hs Hc. unfold re_match_pattern.
  change (canonical_all [("d", gd); ("h", gh); ("m", gm); ("s", gs)]%char)
    with (canonical "d" gd ++ canonical_all [("h", gh); ("m", gm); ("s", gs)]%char)%string.
  rewrite match_group_step_tail; [|reflexivity|assumption| |assumption].
  2:{ repeat constructor; simpl; try assumption; discriminate. }
  change (canonical_all [("h", gh); ("m", gm); ("s", gs)]%char)
    with (canonical "h" gh ++ canonical_all [("m", gm); ("s", gs)]%char)%string.
  rewrite match_group_step_tail; [|reflexivity|assumption| |assumption].
  2:{ repeat constructor; simpl; try assumption; discriminate. }
  change (canonical_all [("m", gm); ("s", gs)]%char)
    with (canonical "m" gm ++ canonical_all [("s", gs)]%char)%string.
  rewrite match_group_step_tail; [|reflexivity|assumption| |assumption].
  2:{ repeat constructor; simpl; try assumption; discriminate. }
  change (canonical_all [("s", gs)]%char)
    with (canonical "s" gs ++ canonical_all [])%string.
  rewrite match_group_step_tail; [|reflexivity|assumption|constructor|assumption].
  reflexivity.
Qed.

(** A well-formed text followed by anything that does not start with a digit
    or a blank reaches the [timedelta] constructor with the same numbers. *)
Lemma parse_duration_with_tail limit ws1 gd gh gm gs c junk :
  well_formed limit ws1 gd gh gm gs "" = true ->
  is_digit c = false -> is_space c = false ->
  parse_duration limit (duration_text ws1 gd gh gm gs "" ++ String c junk)
  = bind (timedelta_new (group_value gd) (group_value gh)
            (group_value gm) (group_value gs))
      (fun td => Return (Some td)).
Proof.
  intros Hwf Hcd Hcs. unfold parse_duration.
  rewrite lower_app, (lower_duration_text limit) by assumption.
  apply well_formed_inv in Hwf
    as ((H1 & H2) & (Hd & Hh & Hm & Hs) & (Ld & Lh & Lm & Ls)).
  cbn [lower].
  destruct (lower_char_plain c Hcd Hcs) as [Hcd' Hcs'].
  rewrite !string_app_assoc, append_nil.
  destruct (strip_tail ws1
              (canonical_all [("d", gd); ("h", gh); ("m", gm); ("s", gs)]%char)
              (lower_char c) (lower junk) H1
              (canonical_all_no_space gd gh gm gs Hd Hh Hm Hs) Hcs') as [j' ->].
  rewrite re_match_pattern_tail by assumption.
  unfold groups. cbn [group1 group2 group3 group4].
  rewrite (int_group _ _ Ld). cbn [bind].
  rewrite (int_group _ _ Lh). cbn [bind].
  rewrite (int_group _ _ Lm). cbn [bind].
  rewrite (int_group _ _ Ls). cbn [bind].
  unfold timedelta_new.
  now destruct (Z.abs _ >? max_timedelta_days).
Qed.

End TrailingTextFacts.

(** X13.  On ASCII text [parse_duration] reads the pairs at the head of
    the text and ignores whatever follows: a well-formed duration text
    followed by any ASCII text that starts with neither a digit nor a blank
    gives the result of the well-formed text alone, so "1hour" is one hour. *)
Theorem parse_duration_ignores_trailing_text limit ws1 gd gh gm gs c junk :
  well_formed limit ws1 gd gh gm gs "" = true ->
  all_chars is_ascii (String c junk) = true ->
  is_digit c = false -> is_space c = false ->
  parse_duration limit (duration_text ws1 gd gh gm gs "" ++ String c junk)
  = parse_duration limit (duration_text ws1 gd gh gm gs "").
Proof.
  intros Hwf _ Hcd Hcs.
  rewrite (parse_duration_with_tail limit) by assumption.
  now rewrite (parse_duration_well_formed limit) by assumption.
Qed.

Lemma parse_duration_ignores_trailing_text_witness :
  parse_duration 4300 "1hour" = parse_duration 4300 "1h"
  /\ parse_duration 4300 "1h" = Return (Some {| days := 0; seconds := 3600;
                                                 microseconds := 0 |}).
Proof.
  split; [|reflexivity].
  apply (parse_duration_ignores_trailing_text 4300 "" None (Some ("1", "h"%char))
           None None "o" "ur"); reflexivity.
Defined.



(** ** Writing and reading integers *)

Section DecimalFacts.

Lemma int_of_digits_app a s1 s2 :
  int_of_digits a (s1 ++ s2) = int_of_digits (int_of_digits a s1) s2.
Proof.
  revert a. induction s1 as [|c s1 IH]; intros a; [reflexivity|].
  rewrite append_cons. cbn [int_of_digits]. apply IH.
Qed.

Lemma string_length_app (a b : string) :
  String.length (a ++ b) = (String.length a + String.length b)%nat.
Proof.
  induction a as [|c a IH]; [reflexivity|].
  rewrite append_cons. cbn [String.length]. now rewrite IH.
Qed.

Lemma digit_char_code d :
  0 <= d < 10 -> code (digit_char d) = Z.to_N (48 + d).
Proof.
  intros Hd. unfold code, digit_char. apply N_ascii_embedding. lia.
Qed.

Lemma digit_char_digit d : 0 <= d < 10 -> is_digit (digit_char d) = true.
Proof.
  intros Hd. unfold is_digit. rewrite (digit_char_code d Hd).
  apply andb_true_iff. split; apply N.leb_le; lia.
Qed.

Lemma digit_char_value d : 0 <= d < 10 -> Z.of_N (code (digit_char d)) - 48 = d.
Proof. intros Hd. rewrite (digit_char_code d Hd). lia. Qed.

Lemma decimal_one_digit n : 0 <= n < 10 -> decimal_of n (String (digit_char n) "").
Proof.
  intros Hn. unfold decimal_of. cbn [all_chars int_of_digits String.length].
  rewrite (digit_char_digit n Hn), (digit_char_value n Hn).
  repeat split; try lia.
  destruct (Z.eq_dec n 0) as [-> | Hne]; [left; now split | right; cbn; lia].
Qed.

Lemma decimal_snoc n ds :
  10 <= n -> decimal_of (n / 10) ds ->
  decimal_of n (ds ++ String (digit_char (n mod 10)) "").
Proof.
  intros Hn (Hall & Hval & Hlow & Hhigh & Hlen).
  pose proof (Z.mod_pos_bound n 10 ltac:(lia)) as Hd.
  pose proof (Z.div_mod n 10 ltac:(lia)) as Hdm.
  unfold decimal_of.
  rewrite all_chars_app, int_of_digits_app, string_length_app, Hall, Hval.
  cbn [all_chars int_of_digits String.length].
  rewrite (digit_char_digit _ Hd), (digit_char_value _ Hd).
  assert (0 < n / 10) by (apply Z.div_str_pos; lia).
  replace (Z.of_nat (String.length ds + 1)) with (Z.succ (Z.of_nat (String.length ds)))
    by lia.
  replace (Z.succ (Z.of_nat (String.length ds)) - 1)
    with (Z.succ (Z.of_nat (String.length ds) - 1)) by lia.
  rewrite !Z.pow_succ_r by lia.
  repeat split; try lia.
Qed.

Lemma digits_fuel_spec f n acc :
  0 <= n < 2 ^ Z.of_nat (S f) ->
  exists ds, digits_fuel (S f) n acc = (ds ++ acc)%string /\ decimal_of n ds.
Proof.
  revert n acc. induction f as [|f IH]; intros n acc Hn.
  - change (2 ^ Z.of_nat 1) with 2 in Hn. cbn [digits_fuel].
    destruct (Z.ltb_spec n 10); [|lia].
    rewrite Z.mod_small by lia.
    exists (String (digit_char n) ""). split; [reflexivity|].
    apply decimal_one_digit. lia.
  - cbn [digits_fuel]. destruct (Z.ltb_spec n 10) as [Hlt | Hge].
    + rewrite Z.mod_small by lia.
      exists (String (digit_char n) ""). split; [reflexivity|].
      apply decimal_one_digit. lia.
    + assert (0 <= n / 10 < 2 ^ Z.of_nat (S f)) as Hq.
      { split; [apply Z.div_pos; lia|].
        apply Z.div_lt_upper_bound; [lia|].
        replace (Z.of_nat (S (S f))) with (Z.succ (Z.of_nat (S f))) in Hn by lia.
        rewrite Z.pow_succ_r in Hn by lia. lia. }
      destruct (IH (n / 10) (String (digit_char (n mod 10)) acc) Hq)
        as (ds & Heq & Hdec).
      change (digits_fuel (S f) (n / 10) (String (digit_char (n mod 10)) acc)
              = (ds ++ String (digit_char (n mod 10)) acc)%string) in Heq.
      exists (ds ++ String (digit_char (n mod 10)) "")%string. split.
      * cbn [digits_fuel] in Heq |- *. rewrite Heq.
        now rewrite string_app_assoc, append_cons, append_nil.
      * now apply decimal_snoc.
Qed.

(** [str(n)] of a non-negative integer is its decimal writing. *)
Lemma str_of_Z_nonneg n : 0 <= n -> decimal_of n (str_of_Z n).
Proof.
  intros Hn. unfold str_of_Z. destruct (Z.ltb_spec n 0); [lia|].
  destruct (digits_fuel_spec (Z.to_nat (Z.log2 n)) n "") as (ds & Heq & Hdec).
  { split; [assumption|].
    replace (Z.of_nat (S (Z.to_nat (Z.log2 n)))) with (Z.succ (Z.log2 n))
      by (pose proof (Z.log2_nonneg n); lia).
    destruct (Z.eq_dec n 0) as [-> | Hne]; [reflexivity|].
    apply Z.log2_spec. lia. }
  rewrite Heq.
  assert ((ds ++ "")%string = ds) as -> by
    (clear; induction ds as [|c ds IH]; [reflexivity | rewrite append_cons; now f_equal]).
  exact Hdec.
Qed.

Lemma str_of_Z_negative n :
  n < 0 -> exists ds, str_of_Z n = String "-" ds /\ decimal_of (- n) ds.
Proof.
  intros Hn. unfold str_of_Z. destruct (Z.ltb_spec n 0); [|lia].
  eexists. split; [reflexivity|].
  pose proof (str_of_Z_nonneg (- n) ltac:(lia)) as H0.
  unfold str_of_Z in H0. destruct (Z.ltb_spec (- n) 0); [lia | exact H0].
Qed.

End DecimalFacts.

(** ** [chunk_list] *)

Section ChunkFacts.
Context {A : Type}.

Lemma slice_chunk (lst : list A) i s :
  0 <= i -> 0 < s ->
  slice lst i (i + s) = firstn (Z.to_nat s) (skipn (Z.to_nat i) lst).
Proof.
  intros Hi Hs. unfold slice, clamp.
  destruct (Z.ltb_spec (i + s) 0); [lia|]. destruct (Z.ltb_spec i 0); [lia|].
  set (n := Z.of_nat (List.length lst)).
  destruct (Z.le_gt_cases i n) as [Hin | Hin].
  - rewrite (Z.min_l i n) by lia.
    destruct (Z.le_gt_cases (i + s) n) as [Hsn | Hsn].
    + rewrite Z.min_l by lia. f_equal. lia.
    + rewrite Z.min_r by lia.
      rewrite !firstn_all2; [reflexivity | |]; rewrite length_skipn; subst n; lia.
  - rewrite (Z.min_r i n), Z.min_r by lia.
    rewrite (skipn_all2 lst (n := Z.to_nat n)) by (subst n; lia).
    rewrite (skipn_all2 lst (n := Z.to_nat i)) by (subst n; lia).
    now rewrite !firstn_nil.
Qed.

Lemma range_length_ceil n size :
  0 < size -> 0 <= n ->
  0 <= range_length 0 n size
  /\ (range_length 0 n size - 1) * size < n <= range_length 0 n size * size.
Proof.
  intros Hs Hn. unfold range_length.
  destruct (Z.gtb_spec size 0); [|lia].
  destruct (Z.ltb_spec 0 n); [|lia].
  replace (n - 0 + size - 1) with (n + size - 1) by lia.
  pose proof (Z.div_mod (n + size - 1) size ltac:(lia)).
  pose proof (Z.mod_pos_bound (n + size - 1) size ltac:(lia)).
  assert (0 <= (n + size - 1) / size) by (apply Z.div_pos; lia).
  nia.
Qed.

(** The chunks as the comprehension builds them, in natural numbers. *)
Lemma chunk_list_chunks (lst : list A) size :
  0 < size ->
  chunk_list lst size
  = Return (map (fun k => firstn (Z.to_nat size) (skipn (k * Z.to_nat size) lst))
              (seq 0 (Z.to_nat (range_length 0 (Z.of_nat (List.length lst)) size)))).
Proof.
  intros Hs. unfold chunk_list, range.
  destruct (Z.eqb_spec size 0); [lia|]. cbn [bind]. f_equal.
  rewrite map_map. apply map_ext. intros k.
  rewrite slice_chunk by lia. do 2 f_equal. lia.
Qed.

Lemma concat_chunks (s cnt : nat) (lst : list A) :
  (0 < s)%nat -> (List.length lst <= cnt * s)%nat ->
  concat (map (fun k => firstn s (skipn (k * s) lst)) (seq 0 cnt)) = lst.
Proof.
  intros Hs. revert lst. induction cnt as [|cnt IH]; intros lst Hlen.
  - destruct lst; [reflexivity | cbn in Hlen; lia].
  - cbn [seq map concat]. rewrite <- seq_shift, map_map.
    transitivity (firstn s lst ++ skipn s lst); [|apply firstn_skipn].
    cbn [Nat.mul skipn]. f_equal.
    etransitivity; [|apply (IH (skipn s lst)); rewrite length_skipn; lia].
    f_equal. apply map_ext. intros k. f_equal.
    rewrite skipn_skipn. f_equal. lia.
Qed.

End ChunkFacts.

(** X15.  [chunk_list] with a chunk size of zero raises [ValueError]; with a
    negative size it returns no chunk at all, whatever the list holds. *)
Theorem chunk_list_without_positive_size {A} (lst : list A) (size : Z) :
  (size = 0 -> chunk_list lst size = Raise ValueError)
  /\ (size < 0 -> chunk_list lst size = Return []).
Proof.
  split; intros H; unfold chunk_list, range.
  - subst. reflexivity.
  - destruct (Z.eqb_spec size 0); [lia|]. cbn [bind].
    unfold range_length. destruct (Z.gtb_spec size 0); [lia|].
    destruct (Z.ltb_spec (Z.of_nat (List.length lst)) 0); [lia|]. reflexivity.
Qed.

Lemma chunk_list_without_positive_size_witness :
  chunk_list [1; 2; 3] 0 = Raise ValueError
  /\ chunk_list [1; 2; 3] (-2) = Return [].
Proof.
  split.
  - apply (proj1 (chunk_list_without_positive_size [1; 2; 3] 0)). reflexivity.
  - apply (proj2 (chunk_list_without_positive_size [1; 2; 3] (-2))). reflexivity.
Defined.

(** X16.  With a positive chunk size, [chunk_list] cuts the list without
    losing or reordering anything: the chunks concatenate back to the list,
    there are ceil(len / size) of them, none is empty, and every chunk but the
    last has exactly [size] elements. *)
Theorem chunk_list_partitions {A} (lst : list A) (size : Z) :
  0 < size ->
  exists chunks,
    chunk_list lst size = Return chunks
    /\ concat chunks = lst
    /\ Z.of_nat (List.length chunks)
       = (Z.of_nat (List.length lst) + size - 1) / size
    /\ (forall i c, nth_error chunks i = Some c ->
          0 < Z.of_nat (List.length c) <= size
          /\ ((S i < List.length chunks)%nat -> Z.of_nat (List.length c) = size)).
Proof.
  intros Hs. eexists. split; [now apply chunk_list_chunks|].
  set (n := Z.of_nat (List.length lst)).
  destruct (range_length_ceil n size Hs ltac:(lia)) as (Hc0 & Hlo & Hhi).
  fold n. set (cnt := range_length 0 n size) in *.
  split; [|split].
  - apply concat_chunks; nia.
  - rewrite length_map, length_seq, Z2Nat.id by assumption.
    subst cnt. unfold range_length. destruct (Z.gtb_spec size 0); [|lia].
    destruct (Z.ltb_spec 0 n).
    + f_equal. lia.
    + assert (n = 0) as -> by lia.
      symmetry. apply Z.div_small. lia.
  - intros i c Hc. rewrite nth_error_map in Hc.
    destruct (nth_error (seq 0 (Z.to_nat cnt)) i) as [k|] eqn:Hk; [|discriminate].
    cbn in Hc. injection Hc as <-.
    pose proof (nth_error_Some (seq 0 (Z.to_nat cnt)) i) as Hi.
    rewrite Hk, length_seq in Hi.
    assert (i < Z.to_nat cnt)%nat as Hlt by (apply Hi; discriminate).
    rewrite nth_error_seq in Hk.
    destruct (Nat.ltb_spec i (Z.to_nat cnt)); [|lia].
    injection Hk as <-. cbn [Nat.add].
    rewrite length_firstn, length_skipn, length_map, length_seq.
    split; [nia|]. intros Hlast. nia.
Qed.

Lemma chunk_list_partitions_witness :
  exists chunks,
    chunk_list [1; 2; 3; 4; 5] 2 = Return chunks
    /\ concat chunks = [1; 2; 3; 4; 5]
    /\ Z.of_nat (List.length chunks) = 3
    /\ (forall i c, nth_error chunks i = Some c ->
          0 < Z.of_nat (List.length c) <= 2
          /\ ((S i < List.length chunks)%nat -> Z.of_nat (List.length c) = 2)).
Proof.
  apply (chunk_list_partitions [1; 2; 3; 4; 5] 2). reflexivity.
Defined.

(** ** Levels *)

Section LevelFacts.

Lemma xp_needed_square level : calculate_xp_needed level = 50 * (level + 1) * (level + 1).
Proof. unfold calculate_xp_needed. rewrite Z.pow_2_r. ring. Qed.

Lemma thrice_xp_step level :
  thrice_xp_for (level + 1) = thrice_xp_for level + 3 * calculate_xp_needed level.
Proof. rewrite xp_needed_square. unfold thrice_xp_for. ring. Qed.

Lemma xp_needed_pos level : 0 <= level -> 50 <= calculate_xp_needed level.
Proof. intros H. rewrite xp_needed_square. nia. Qed.

(** The loop, from any state it can reach: it stops, at the level whose
    threshold the remaining experience no longer meets. *)
Lemma level_loop_spec fuel xp level :
  0 <= level -> (Z.to_nat xp < fuel)%nat ->
  exists L,
    level_loop fuel xp level = Some L
    /\ level <= L
    /\ 3 * xp + thrice_xp_for level < thrice_xp_for (L + 1)
    /\ (0 <= xp -> thrice_xp_for L <= 3 * xp + thrice_xp_for level)
    /\ (xp < 0 -> L = level).
Proof.
  revert xp level. induction fuel as [|fuel IH]; intros xp level Hl Hf; [lia|].
  cbn [level_loop]. pose proof (xp_needed_pos level Hl) as Hpos.
  destruct (Z.geb_spec xp (calculate_xp_needed level)) as [Hge | Hlt].
  - destruct (IH (xp - calculate_xp_needed level) (level + 1)) as (L & -> & HL & Hup & Hlow & _);
      [lia | lia |].
    exists L. rewrite thrice_xp_step in Hup, Hlow.
    split; [reflexivity|]. split; [lia|]. split; [lia|]. split; [|lia].
    intros _. specialize (Hlow ltac:(lia)). lia.
  - exists level. rewrite thrice_xp_step.
    split; [reflexivity|]. split; [lia|]. split; [lia|]. split; [lia | reflexivity].
Qed.

Lemma thrice_xp_mono a b : 0 <= a -> a <= b -> thrice_xp_for a <= thrice_xp_for b.
Proof.
  intros Ha Hab. replace b with (a + Z.of_nat (Z.to_nat (b - a))) by lia.
  induction (Z.to_nat (b - a)) as [|n IH]; [rewrite Z.add_0_r; lia|].
  replace (a + Z.of_nat (S n)) with (a + Z.of_nat n + 1) by lia.
  rewrite thrice_xp_step.
  pose proof (xp_needed_pos (a + Z.of_nat n) ltac:(lia)). lia.
Qed.

End LevelFacts.

Lemma level_is_largest_affordable_aux (xp : Z) :
  exists L,
    get_level_from_xp xp = Some L
    /\ 0 <= L
    /\ 3 * xp < thrice_xp_for (L + 1)
    /\ (0 <= xp -> thrice_xp_for L <= 3 * xp)
    /\ (xp < 50 -> L = 0).
Proof.
  unfold get_level_from_xp.
  destruct (level_loop_spec (S (Z.to_nat xp)) xp 0 ltac:(lia) ltac:(lia))
    as (L & HL & H0 & Hup & Hlow & Hneg).
  exists L. change (thrice_xp_for 0) with 0 in *. rewrite Z.add_0_r in *.
  split; [assumption|]. split; [assumption|]. split; [assumption|].
  split; [assumption|].
  intros Hsmall. destruct (Z.lt_ge_cases xp 0) as [Hn | Hp]; [now apply Hneg|].
  destruct (Z.eq_dec L 0) as [-> | Hne]; [reflexivity|].
  specialize (Hlow Hp).
  pose proof (thrice_xp_mono 1 L ltac:(lia) ltac:(lia)) as Hm.
  change (thrice_xp_for 1) with 150 in Hm. lia.
Qed.

(** X17.  [get_level_from_xp] terminates on every input.  For [xp >= 0] it
    returns the one level [L >= 0] with
    25 L (L+1) (2L+1) <= 3 xp < 25 (L+1) (L+2) (2L+3), that is the largest
    level whose cumulated [calculate_xp_needed] fits in [xp]; for negative
    [xp] it returns 0. *)
Theorem level_is_largest_affordable (xp : Z) :
  exists L,
    get_level_from_xp xp = Some L
    /\ 0 <= L
    /\ 3 * xp < thrice_xp_for (L + 1)
    /\ (0 <= xp -> thrice_xp_for L <= 3 * xp)
    /\ (xp < 50 -> L = 0).
Proof. apply level_is_largest_affordable_aux. Qed.

(** X18.  More experience never lowers the level. *)
Theorem level_is_monotone (xp1 xp2 L1 L2 : Z) :
  xp1 <= xp2 ->
  get_level_from_xp xp1 = Some L1 -> get_level_from_xp xp2 = Some L2 ->
  L1 <= L2.
Proof.
  intros Hle H1 H2.
  destruct (level_is_largest_affordable_aux xp1) as (L1' & E1 & P1 & U1 & W1 & S1).
  destruct (level_is_largest_affordable_aux xp2) as (L2' & E2 & P2 & U2 & W2 & S2).
  rewrite H1 in E1. rewrite H2 in E2. injection E1 as <-. injection E2 as <-.
  destruct (Z.lt_ge_cases xp1 50) as [Hs | Hb]; [rewrite (S1 Hs); assumption|].
  destruct (Z.le_gt_cases L1 L2) as [|Hgt]; [assumption | exfalso].
  pose proof (thrice_xp_mono (L2 + 1) L1 ltac:(lia) ltac:(lia)).
  specialize (W1 ltac:(lia)). lia.
Qed.

Lemma level_is_monotone_witness :
  get_level_from_xp 49 = Some 0 /\ get_level_from_xp 250 = Some 2 /\ 0 <= 2.
Proof.
  split; [reflexivity|]. split; [reflexivity|].
  apply (level_is_monotone 49 250 0 2); [lia | reflexivity | reflexivity].
Defined.

(** ** [sanitize_input] *)

Section SanitizeFacts.

Lemma lstrip_length s : (String.length (lstrip s) <= String.length s)%nat.
Proof.
  induction s as [|c s IH]; [reflexivity|]. cbn [lstrip].
  destruct (is_space c); cbn [String.length]; lia.
Qed.

Lemma rstrip_length s : (String.length (rstrip s) <= String.length s)%nat.
Proof.
  induction s as [|c s IH]; [reflexivity|]. cbn [rstrip].
  destruct (rstrip s); [destruct (is_space c)|]; cbn [String.length] in *; lia.
Qed.

Lemma lstrip_all p s : all_chars p s = true -> all_chars p (lstrip s) = true.
Proof.
  induction s as [|c s IH]; [reflexivity|]. cbn [lstrip].
  destruct (is_space c); [|trivial].
  cbn [all_chars]. intros [_ H]%andb_true_iff. auto.
Qed.

Lemma rstrip_all p s : all_chars p s = true -> all_chars p (rstrip s) = true.
Proof.
  induction s as [|c s IH]; [reflexivity|]. cbn [rstrip all_chars].
  intros [Hc Hs]%andb_true_iff. specialize (IH Hs).
  destruct (rstrip s); [destruct (is_space c)|]; cbn [all_chars] in *;
    rewrite ?Hc; auto.
Qed.

Lemma lstrip_lstrip s : lstrip (lstrip s) = lstrip s.
Proof.
  induction s as [|c s IH]; [reflexivity|]. cbn [lstrip].
  destruct (is_space c) eqn:E; [exact IH|]. cbn [lstrip]. now rewrite E.
Qed.

Lemma rstrip_cons c s :
  rstrip (String c s)
  = match rstrip s with
    | EmptyString => if is_space c then EmptyString else String c EmptyString
    | r' => String c r'
    end.
Proof. reflexivity. Qed.

Lemma rstrip_rstrip s : rstrip (rstrip s) = rstrip s.
Proof.
  induction s as [|c s IH]; [reflexivity|]. rewrite rstrip_cons.
  destruct (rstrip s) as [|x r] eqn:E.
  - destruct (is_space c) eqn:Ec; [reflexivity|]. cbn [rstrip]. now rewrite Ec.
  - now rewrite rstrip_cons, IH.
Qed.

Lemma lstrip_of_rstrip x : lstrip x = x -> lstrip (rstrip x) = rstrip x.
Proof.
  destruct x as [|c r]; [reflexivity|]. cbn [lstrip].
  destruct (is_space c) eqn:Ec.
  - intros H. pose proof (lstrip_length r) as Hl. rewrite H in Hl.
    cbn [String.length] in Hl. lia.
  - intros _. destruct (rstrip_keeps_head c r Ec) as [j ->].
    cbn [lstrip]. now rewrite Ec.
Qed.

Lemma strip_stripped s : lstrip (strip s) = strip s /\ rstrip (strip s) = strip s.
Proof.
  unfold strip. split; [|apply rstrip_rstrip].
  apply lstrip_of_rstrip, lstrip_lstrip.
Qed.

Lemma remove_char_clean c s :
  all_chars (fun x => negb (Ascii.eqb x c)) (remove_char c s) = true.
Proof.
  induction s as [|x s IH]; [reflexivity|]. cbn [remove_char].
  destruct (Ascii.eqb x c) eqn:E; [exact IH|]. cbn [all_chars]. now rewrite E, IH.
Qed.

Lemma remove_char_id c s :
  all_chars (fun x => negb (Ascii.eqb x c)) s = true -> remove_char c s = s.
Proof.
  induction s as [|x s IH]; [reflexivity|]. cbn [all_chars remove_char].
  intros [Hx Hs]%andb_true_iff. apply negb_true_iff in Hx. rewrite Hx.
  now rewrite IH.
Qed.

Lemma remove_char_length c s :
  (String.length (remove_char c s) <= String.length s)%nat.
Proof.
  induction s as [|x s IH]; [reflexivity|]. cbn [remove_char].
  destruct (Ascii.eqb x c); cbn [String.length]; lia.
Qed.

Lemma string_firstn_length k s :
  (String.length (string_firstn k s) <= k)%nat
  /\ (String.length (string_firstn k s) <= String.length s)%nat.
Proof.
  revert s. induction k as [|k IH]; intros s; [split; cbn; lia|].
  destruct s as [|c s]; [split; cbn; lia|].
  cbn [string_firstn String.length]. destruct (IH s). lia.
Qed.

Lemma string_firstn_all k s :
  (String.length s <= k)%nat -> string_firstn k s = s.
Proof.
  revert s. induction k as [|k IH]; intros [|c s] H; cbn in *; try reflexivity;
    [lia|]. rewrite IH by lia. reflexivity.
Qed.

(** What [sanitize_input] returns: free of NUL, stripped, no longer than the
    text and than a non-negative [max_length]. *)
Lemma sanitize_input_result text n :
  all_chars not_nul (sanitize_input text n) = true
  /\ lstrip (sanitize_input text n) = sanitize_input text n
  /\ rstrip (sanitize_input text n) = sanitize_input text n
  /\ (String.length (sanitize_input text n) <= String.length text)%nat
  /\ (0 <= n -> Z.of_nat (String.length (sanitize_input text n)) <= n).
Proof.
  unfold sanitize_input. destruct text as [|c t]; [repeat split; cbn; lia|].
  set (text := String c t). set (cut := str_slice_to text n).
  split; [|split; [|split; [|split]]].
  - unfold strip. apply rstrip_all, lstrip_all, remove_char_clean.
  - apply strip_stripped.
  - apply strip_stripped.
  - unfold strip.
    pose proof (rstrip_length (lstrip (remove_char zero (remove_char zero cut)))).
    pose proof (lstrip_length (remove_char zero (remove_char zero cut))).
    pose proof (remove_char_length zero (remove_char zero cut)).
    pose proof (remove_char_length zero cut).
    pose proof (proj2 (string_firstn_length
                         (Z.to_nat (clamp (Z.of_nat (String.length text)) n)) text)).
    subst cut. unfold str_slice_to in *. lia.
  - intros Hn. unfold strip.
    pose proof (rstrip_length (lstrip (remove_char zero (remove_char zero cut)))).
    pose proof (lstrip_length (remove_char zero (remove_char zero cut))).
    pose proof (remove_char_length zero (remove_char zero cut)).
    pose proof (remove_char_length zero cut).
    pose proof (proj1 (string_firstn_length
                         (Z.to_nat (clamp (Z.of_nat (String.length text)) n)) text)).
    assert (clamp (Z.of_nat (String.length text)) n <= n).
    { unfold clamp. destruct (Z.ltb_spec n 0); lia. }
    subst cut. unfold str_slice_to in *. lia.
Qed.

End SanitizeFacts.

(** X19.  Whatever the text and the length, the result of [sanitize_input]
    holds no NUL character, has no white space at either end, is no longer
    than the text, and -- for a non-negative [max_length] -- no longer than
    [max_length]. *)
Theorem sanitize_input_is_clean (text : string) (max_length : Z) :
  all_chars (fun c => negb (Ascii.eqb c zero)) (sanitize_input text max_length) = true
  /\ lstrip (sanitize_input text max_length) = sanitize_input text max_length
  /\ rstrip (sanitize_input text max_length) = sanitize_input text max_length
  /\ (String.length (sanitize_input text max_length) <= String.length text)%nat
  /\ (0 <= max_length ->
      Z.of_nat (String.length (sanitize_input text max_length)) <= max_length).
Proof. apply sanitize_input_result. Qed.

(** X20.  With a non-negative [max_length], sanitising twice is sanitising
    once. *)
Theorem sanitize_input_idempotent (text : string) (max_length : Z) :
  0 <= max_length ->
  sanitize_input (sanitize_input text max_length) max_length
  = sanitize_input text max_length.
Proof.
  intros Hn.
  destruct (sanitize_input_result text max_length) as (Hnul & Hl & Hr & _ & Hlen).
  specialize (Hlen Hn).
  set (r := sanitize_input text max_length) in *.
  unfold sanitize_input at 1. destruct r as [|c t] eqn:Er; [reflexivity|].
  rewrite <- Er in *.
  assert (str_slice_to r max_length = r) as ->.
  { unfold str_slice_to. apply string_firstn_all. unfold clamp.
    destruct (Z.ltb_spec max_length 0); lia. }
  rewrite !(remove_char_id zero r) by exact Hnul.
  unfold strip. now rewrite Hl, Hr.
Qed.

Lemma sanitize_input_idempotent_witness :
  let nul := String zero "" in
  sanitize_input ("  ab" ++ nul ++ "c  def") 8 = "abc"%string
  /\ sanitize_input (sanitize_input ("  ab" ++ nul ++ "c  def") 8) 8
     = sanitize_input ("  ab" ++ nul ++ "c  def") 8.
Proof.
  cbv zeta. split; [reflexivity|].
  apply sanitize_input_idempotent. lia.
Defined.

(** ** [is_valid_discord_id] *)

Section DiscordIdFacts.

Lemma digit_not_c_space c : is_digit c = true -> is_c_space c = false.
Proof.
  unfold is_digit, is_c_space.
  intros [Hlo%N.leb_le Hhi%N.leb_le]%andb_true_iff.
  apply orb_false_iff. split.
  - apply andb_false_iff. right. apply N.leb_gt. lia.
  - apply N.eqb_neq. lia.
Qed.

Lemma rstrip_c_digits ds :
  all_chars is_digit ds = true -> rstrip_c ds = ds.
Proof.
  induction ds as [|c ds IH]; [reflexivity|]. cbn [all_chars rstrip_c].
  intros [Hc Hds]%andb_true_iff. rewrite (IH Hds).
  destruct ds; [now rewrite (digit_not_c_space c Hc) | reflexivity].
Qed.

Lemma lstrip_c_digits ds :
  all_chars is_digit ds = true -> lstrip_c ds = ds.
Proof.
  destruct ds as [|c ds]; [reflexivity|]. cbn [all_chars lstrip_c].
  intros [Hc _]%andb_true_iff. now rewrite (digit_not_c_space c Hc).
Qed.

Lemma literal_digits_plain ds :
  all_chars is_digit ds = true ->
  forall prev, (ds <> ""%string \/ prev = true) -> literal_digits prev ds = Some ds.
Proof.
  induction ds as [|c ds IH]; intros Hall prev Hne.
  - destruct Hne as [Hne | ->]; [congruence | reflexivity].
  - cbn [all_chars] in Hall. apply andb_true_iff in Hall as [Hc Hds].
    cbn [literal_digits]. rewrite Hc, (IH Hds true); [reflexivity | now right].
Qed.

Lemma digit_not_sign c : is_digit c = true -> c <> "-"%char /\ c <> "+"%char.
Proof.
  intros H. split; intros ->; discriminate.
Qed.

(** [int()] of a plain digit string, and of one with a minus sign in front. *)
Lemma int_of_str_digits limit ds :
  all_chars is_digit ds = true -> ds <> ""%string ->
  (limit = 0 \/ String.length ds <= limit)%nat ->
  int_of_str limit ds = Return (int_of_digits 0 ds)
  /\ int_of_str limit (String "-" ds) = Return (- int_of_digits 0 ds).
Proof.
  intros Hall Hne Hlim.
  assert ((limit =? 0)%nat || (String.length ds <=? limit)%nat = true) as Hok.
  { apply orb_true_iff. destruct Hlim as [-> | H]; [now left|].
    right. now apply Nat.leb_le. }
  unfold int_of_str. split.
  - rewrite lstrip_c_digits, rstrip_c_digits by assumption.
    destruct ds as [|c ds']; [congruence|].
    assert (is_digit c = true) as Hc
      by (cbn in Hall; now apply andb_true_iff in Hall as [Hc _]).
    destruct (digit_not_sign c Hc) as [Hm Hp].
    assert (match String c ds' with
            | String "-" r => (true, r)
            | String "+" r => (false, r)
            | _ => (false, String c ds')
            end = (false, String c ds')) as ->.
    { destruct c as [[] [] [] [] [] [] [] []]; try reflexivity; congruence. }
    rewrite literal_digits_plain by (assumption || now left).
    now rewrite Hok.
  - cbn [lstrip_c]. change (is_c_space "-") with false. cbn match.
    assert (rstrip_c (String "-" ds) = String "-" ds) as ->.
    { cbn [rstrip_c]. rewrite rstrip_c_digits by assumption.
      destruct ds; [congruence | reflexivity]. }
    rewrite literal_digits_plain by (assumption || now left).
    now rewrite Hok.
Qed.

Lemma pow10_mono a b : 0 <= a <= b -> 10 ^ a <= 10 ^ b.
Proof. intros H. apply Z.pow_le_mono_r; lia. Qed.

(** The length of a decimal writing is between 17 and 20 exactly when the
    number is at least 10^16 and below 10^20. *)
Lemma decimal_length_window n ds (lo hi : nat) :
  decimal_of n ds -> (2 <= lo)%nat ->
  ((lo <=? String.length ds)%nat && (String.length ds <=? hi)%nat)
  = (10 ^ (Z.of_nat lo - 1) <=? n) && (n <? 10 ^ Z.of_nat hi).
Proof.
  intros (_ & _ & Hlow & Hhigh & Hlen) Hlo.
  set (L := String.length ds) in *.
  assert (0 <= n) as Hn.
  { destruct Hlow as [[-> _] | Hlow]; [lia|].
    pose proof (Z.pow_nonneg 10 (Z.of_nat L - 1) ltac:(lia)). lia. }
  destruct (Nat.leb_spec lo L) as [H1 | H1];
    destruct (Nat.leb_spec L hi) as [H2 | H2]; cbn [andb];
    symmetry.
  - apply andb_true_iff. split.
    + apply Z.leb_le. destruct Hlow as [[-> Hds] | Hlow].
      * subst L. rewrite Hds in H1. cbn in H1. lia.
      * pose proof (pow10_mono (Z.of_nat lo - 1) (Z.of_nat L - 1) ltac:(lia)). lia.
    + apply Z.ltb_lt.
      pose proof (pow10_mono (Z.of_nat L) (Z.of_nat hi) ltac:(lia)). lia.
  - apply andb_false_iff. right. apply Z.ltb_ge.
    destruct Hlow as [[-> Hds] | Hlow].
    + subst L. rewrite Hds in *. cbn in *. lia.
    + pose proof (pow10_mono (Z.of_nat hi) (Z.of_nat L - 1) ltac:(lia)). lia.
  - apply andb_false_iff. left. apply Z.leb_gt.
    pose proof (pow10_mono (Z.of_nat L) (Z.of_nat lo - 1) ltac:(lia)). lia.
  - apply andb_false_iff. left. apply Z.leb_gt.
    pose proof (pow10_mono (Z.of_nat L) (Z.of_nat lo - 1) ltac:(lia)). lia.
Qed.

End DiscordIdFacts.

Section DiscordIdResult.

Lemma int_of_str_raises limit s e : int_of_str limit s = Raise e -> e = ValueError.
Proof.
  unfold int_of_str.
  destruct (match rstrip_c (lstrip_c s) with
            | String "-" r => (true, r)
            | String "+" r => (false, r)
            | _ => (false, rstrip_c (lstrip_c s))
            end) as [negative rest].
  destruct (literal_digits false rest); [|congruence].
  destruct ((limit =? 0)%nat || _); congruence.
Qed.

End DiscordIdResult.

(** X21.  [is_valid_discord_id] judges the length of [str(int(id_str))], not
    of the text: a plain digit string is accepted exactly when its value is
    at least 10^16 and below 10^20 (leading zeros do not count), and a digit
    string with a minus sign in front is accepted exactly when its value is at
    least 10^15 and below 10^19 -- the sign counts as a character, so negative
    numbers pass.  The function never raises. *)
Theorem discord_id_accepts_by_magnitude limit ds :
  all_chars is_digit ds = true -> ds <> ""%string ->
  (limit = 0 \/ String.length ds <= limit)%nat ->
  is_valid_discord_id limit ds
  = Return ((10 ^ 16 <=? int_of_digits 0 ds) && (int_of_digits 0 ds <? 10 ^ 20))
  /\ is_valid_discord_id limit (String "-" ds)
     = Return ((10 ^ 15 <=? int_of_digits 0 ds) && (int_of_digits 0 ds <? 10 ^ 19))
  /\ (forall s, exists b, is_valid_discord_id limit s = Return b).
Proof.
  intros Hall Hne Hlim.
  destruct (int_of_str_digits limit ds Hall Hne Hlim) as [Hplain Hminus].
  pose proof (int_of_digits_nonneg ds 0 Hall ltac:(lia)) as Hv.
  set (v := int_of_digits 0 ds) in *.
  unfold is_valid_discord_id. split; [|split].
  - rewrite Hplain. cbn [bind try_except]. f_equal.
    apply (decimal_length_window v (str_of_Z v) 17 20);
      [now apply str_of_Z_nonneg | lia].
  - rewrite Hminus. cbn [bind try_except]. f_equal.
    destruct (Z.eq_dec v 0) as [-> | Hpos]; [reflexivity|].
    destruct (str_of_Z_negative (- v) ltac:(lia)) as (ds' & -> & Hdec).
    rewrite Z.opp_involutive in Hdec. cbn [String.length].
    change ((17 <=? S (String.length ds'))%nat) with (16 <=? String.length ds')%nat.
    change ((S (String.length ds') <=? 20)%nat) with (String.length ds' <=? 19)%nat.
    apply (decimal_length_window v ds' 16 19); [assumption | lia].
  - intros s. destruct (int_of_str limit s) as [n | e] eqn:E; cbn [bind try_except].
    + eauto.
    + rewrite (int_of_str_raises limit s e E). cbn. eauto.
Qed.

Lemma discord_id_accepts_by_magnitude_witness :
  is_valid_discord_id 4300 "1234567890123456" = Return false
  /\ is_valid_discord_id 4300 "-1234567890123456" = Return true
  /\ is_valid_discord_id 4300 "00000000000000000001" = Return false.
Proof.
  split; [|split].
  - apply (proj1 (discord_id_accepts_by_magnitude 4300 "1234567890123456"
                    eq_refl ltac:(discriminate) ltac:(right; cbn; lia))).
  - apply (proj1 (proj2 (discord_id_accepts_by_magnitude 4300 "1234567890123456"
                    eq_refl ltac:(discriminate) ltac:(right; cbn; lia)))).
  - apply (proj1 (discord_id_accepts_by_magnitude 4300 "00000000000000000001"
                    eq_refl ltac:(discriminate) ltac:(right; cbn; lia))).
Defined.

(** ** [format_timedelta] read back by [parse_duration] *)

Section FormatFacts.

Lemma string_app_nil_r (s : string) : (s ++ "")%string = s.
Proof. induction s as [|c s IH]; [reflexivity | rewrite append_cons; now f_equal]. Qed.

Lemma part_char_plain c :
  is_part_char c = true ->
  is_space c = false /\ lower_char c = c.
Proof.
  unfold is_part_char. rewrite !orb_true_iff.
  intros [[[[H | H] | H] | H] | H].
  - split; [now apply digit_not_space | now apply digit_lower].
  - apply Ascii.eqb_eq in H as ->. now split.
  - apply Ascii.eqb_eq in H as ->. now split.
  - apply Ascii.eqb_eq in H as ->. now split.
  - apply Ascii.eqb_eq in H as ->. now split.
Qed.

Lemma part_not_space p : all_chars is_part_char p = true -> all_chars not_space p = true.
Proof.
  induction p as [|c p IH]; [reflexivity|]. cbn [all_chars].
  intros [Hc Hp]%andb_true_iff. rewrite (IH Hp), andb_true_r.
  unfold not_space. now rewrite (proj1 (part_char_plain c Hc)).
Qed.

Lemma part_lower p : all_chars is_part_char p = true -> lower p = p.
Proof.
  apply lower_fixed. intros c Hc. apply (part_char_plain c Hc).
Qed.

Lemma join_cons2 sep p q rest :
  join sep (p :: q :: rest) = (p ++ sep ++ join sep (q :: rest))%string.
Proof. reflexivity. Qed.

Lemma join_nonempty p rest :
  is_part p -> exists c j, join " " (p :: rest) = String c j /\ is_space c = false.
Proof.
  intros [Hall Hne]. destruct p as [|c p]; [congruence|].
  cbn [all_chars] in Hall. apply andb_true_iff in Hall as [Hc _].
  exists c. destruct rest as [|q rest].
  - exists p. split; [reflexivity | apply (part_char_plain c Hc)].
  - eexists. rewrite join_cons2, append_cons.
    split; [reflexivity | apply (part_char_plain c Hc)].
Qed.

Lemma join_lower parts : Forall is_part parts -> lower (join " " parts) = join " " parts.
Proof.
  induction 1 as [|p rest [Hp _] Hrest IH]; [reflexivity|].
  destruct rest as [|q rest]; [now apply part_lower|].
  rewrite join_cons2, !lower_app, IH, part_lower by assumption. reflexivity.
Qed.

Lemma join_rstrip parts : Forall is_part parts -> rstrip (join " " parts) = join " " parts.
Proof.
  induction 1 as [|p rest Hp Hrest IH]; [reflexivity|].
  destruct rest as [|q rest].
  - cbn [join]. rewrite <- (string_app_nil_r p) at 1.
    apply rstrip_body; [apply part_not_space, Hp | reflexivity].
  - rewrite join_cons2.
    inversion Hrest as [|? ? Hq Hrest']; subst.
    destruct (join_nonempty q rest Hq) as (c & j & Hj & _).
    rewrite Hj in IH.
    assert (rstrip (" " ++ join " " (q :: rest)) = (" " ++ join " " (q :: rest))%string)
      as Hsp.
    { rewrite Hj. now apply (rstrip_app_nonempty " " (String c j) c j). }
    rewrite Hj in Hsp |- *.
    change (" " ++ String c j)%string with (String " " (String c j)) in *.
    now apply (rstrip_app_nonempty p (String " " (String c j)) " " (String c j)).
Qed.

Lemma join_strip p rest :
  Forall is_part (p :: rest) ->
  strip (lower (join " " (p :: rest))) = join " " (p :: rest).
Proof.
  intros H. rewrite join_lower by assumption. unfold strip.
  inversion H as [|? ? Hp _]; subst.
  destruct (join_nonempty p rest Hp) as (c & j & Hj & Hc).
  assert (lstrip (join " " (p :: rest)) = join " " (p :: rest)) as ->.
  { rewrite Hj. cbn [lstrip]. now rewrite Hc. }
  now apply join_rstrip.
Qed.

(** The text of the pairs present, when it is the first part of a formatted
    duration, is all [parse_duration] reads. *)
Lemma parse_duration_first_part limit gd gh gm gs rest :
  well_formed limit "" gd gh gm gs "" = true ->
  is_part (canonical_all [("d", gd); ("h", gh); ("m", gm); ("s", gs)]%char) ->
  Forall is_part rest ->
  parse_duration limit
    (join " " (canonical_all [("d", gd); ("h", gh); ("m", gm); ("s", gs)]%char :: rest))
  = bind (timedelta_new (group_value gd) (group_value gh)
            (group_value gm) (group_value gs))
      (fun td => Return (Some td)).
Proof.
  intros Hwf Hpart Hrest. unfold parse_duration.
  rewrite join_strip by now constructor.
  apply well_formed_inv in Hwf
    as (_ & (Hd & Hh & Hm & Hs) & (Ld & Lh & Lm & Ls)).
  assert (re_match_pattern
            (join " " (canonical_all [("d", gd); ("h", gh); ("m", gm); ("s", gs)]%char
                       :: rest))
          = Some {| group1 := digits_of gd; group2 := digits_of gh;
                    group3 := digits_of gm; group4 := digits_of gs |}) as ->.
  { destruct rest as [|q rest].
    - now apply re_match_pattern_canonical.
    - rewrite join_cons2.
      change (" " ++ join " " (q :: rest))%string
        with (String " " (join " " (q :: rest))).
      now apply re_match_pattern_tail. }
  unfold groups. cbn [group1 group2 group3 group4].
  rewrite (int_group _ _ Ld). cbn [bind].
  rewrite (int_group _ _ Lh). cbn [bind].
  rewrite (int_group _ _ Lm). cbn [bind].
  rewrite (int_group _ _ Ls). cbn [bind].
  unfold timedelta_new.
  now destruct (Z.abs _ >? max_timedelta_days).
Qed.

Lemma digits_are_part ds : all_chars is_digit ds = true -> all_chars is_part_char ds = true.
Proof.
  induction ds as [|c ds IH]; [reflexivity|]. cbn [all_chars].
  intros [Hc Hds]%andb_true_iff. rewrite (IH Hds), andb_true_r.
  unfold is_part_char. now rewrite Hc.
Qed.

(** One part as [format_timedelta] writes it, [f"{v}{u}"]. *)
Lemma unit_part v u :
  0 <= v -> is_part_char u = true -> is_part (str_of_Z v ++ String u "").
Proof.
  intros Hv Hu. destruct (str_of_Z_nonneg v Hv) as (Hall & _ & _ & _ & Hlen).
  split.
  - rewrite all_chars_app, (digits_are_part _ Hall). cbn [all_chars andb].
    now rewrite Hu.
  - destruct (str_of_Z v); [cbn in Hlen; lia | rewrite append_cons; discriminate].
Qed.

Lemma decimal_short n ds : decimal_of n ds -> n < 10 ^ 9 -> (String.length ds <= 9)%nat.
Proof.
  intros (_ & _ & Hlow & _ & Hlen) Hn.
  destruct Hlow as [[_ ->] | Hlow]; [cbn; lia|].
  destruct (Nat.le_gt_cases (String.length ds) 9) as [H | H]; [assumption|].
  pose proof (pow10_mono 9 (Z.of_nat (String.length ds) - 1) ltac:(lia)). lia.
Qed.

Lemma group_ok_str v u : 0 <= v -> group_ok u (Some (str_of_Z v, u)) = true.
Proof.
  intros Hv. destruct (str_of_Z_nonneg v Hv) as (Hall & _ & _ & _ & Hlen).
  unfold group_ok. rewrite Hall, Ascii.eqb_refl.
  destruct (str_of_Z v); [cbn in Hlen; lia | reflexivity].
Qed.

Lemma group_within_str limit v u :
  0 <= v < 10 ^ 9 -> (limit = 0 \/ 9 <= limit)%nat ->
  group_within limit (Some (str_of_Z v, u)) = true.
Proof.
  intros Hv Hl. unfold group_within. apply orb_true_iff.
  destruct Hl as [-> | Hl]; [now left | right].
  apply Nat.leb_le.
  pose proof (decimal_short v _ (str_of_Z_nonneg v ltac:(lia)) ltac:(lia)). lia.
Qed.

Lemma group_value_str v u : 0 <= v -> group_value (Some (str_of_Z v, u)) = v.
Proof. intros Hv. apply (str_of_Z_nonneg v Hv). Qed.

(** A total below the range of [timedelta] is built as it is. *)
Lemma timedelta_new_small d h m s :
  0 <= 86400 * d + 3600 * h + 60 * m + s < 86400 * 10 ^ 9 ->
  exists td', timedelta_new d h m s = Return td'
              /\ total_seconds td' = 86400 * d + 3600 * h + 60 * m + s.
Proof.
  intros Hv. rewrite timedelta_new_total.
  set (V := 86400 * d + 3600 * h + 60 * m + s) in *.
  change (10 ^ 9) with 1000000000 in Hv.
  assert (0 <= V / 86400 < 1000000000) as Hq.
  { split; [apply Z.div_pos; lia | apply Z.div_lt_upper_bound; lia]. }
  unfold max_timedelta_days.
  destruct (Z.gtb_spec (Z.abs (V / 86400)) 999999999) as [Hgt | _]; [lia|].
  eexists. split; [reflexivity|].
  unfold total_seconds. cbn [days seconds].
  pose proof (Z.div_mod V 86400 ltac:(lia)). lia.
Qed.

(** The first part of a formatted duration is the whole of what
    [parse_duration] makes of it. *)
Lemma parse_duration_lead limit gd gh gm gs rest :
  well_formed limit "" gd gh gm gs "" = true ->
  is_part (canonical_all [("d", gd); ("h", gh); ("m", gm); ("s", gs)]%char) ->
  Forall is_part rest ->
  0 <= duration_value gd gh gm gs < 86400 * 10 ^ 9 ->
  exists td',
    parse_duration limit
      (join " " (canonical_all [("d", gd); ("h", gh); ("m", gm); ("s", gs)]%char :: rest))
    = Return (Some td')
    /\ total_seconds td' = duration_value gd gh gm gs.
Proof.
  intros Hwf Hpart Hrest Hv.
  rewrite (parse_duration_first_part limit gd gh gm gs rest Hwf Hpart Hrest).
  destruct (timedelta_new_small _ _ _ _ Hv) as (td' & -> & Htd).
  exists td'. split; [reflexivity | exact Htd].
Qed.

Lemma lead_d limit v rest :
  0 <= v < 10 ^ 9 -> (limit = 0 \/ 9 <= limit)%nat -> Forall is_part rest ->
  exists td',
    parse_duration limit (join " " ((str_of_Z v ++ "d")%string :: rest)) = Return (Some td')
    /\ total_seconds td' = 86400 * v.
Proof.
  intros Hv Hl Hrest.
  destruct (parse_duration_lead limit (Some (str_of_Z v, "d"%char)) None None None rest)
    as (td' & Hrun & Htd).
  - unfold well_formed.
    rewrite (group_ok_str v "d" ltac:(lia)), (group_within_str limit v "d" Hv Hl).
    reflexivity.
  - cbn [canonical_all canonical]. rewrite !append_nil, string_app_nil_r.
    apply unit_part; [lia | reflexivity].
  - exact Hrest.
  - unfold duration_value. rewrite (group_value_str v "d" ltac:(lia)).
    cbn [group_value]. change (10 ^ 9) with 1000000000 in *. lia.
  - exists td'. split.
    + cbn [canonical_all canonical] in Hrun.
      rewrite !append_nil, string_app_nil_r in Hrun. exact Hrun.
    + rewrite Htd. unfold duration_value. rewrite (group_value_str v "d" ltac:(lia)).
      cbn [group_value]. lia.
Qed.

Lemma lead_h limit v rest :
  0 <= v < 24 -> (limit = 0 \/ 9 <= limit)%nat -> Forall is_part rest ->
  exists td',
    parse_duration limit (join " " ((str_of_Z v ++ "h")%string :: rest)) = Return (Some td')
    /\ total_seconds td' = 3600 * v.
Proof.
  intros Hv Hl Hrest.
  assert (0 <= v < 10 ^ 9) as Hv' by (change (10 ^ 9) with 1000000000; lia).
  destruct (parse_duration_lead limit None (Some (str_of_Z v, "h"%char)) None None rest)
    as (td' & Hrun & Htd).
  - unfold well_formed.
    rewrite (group_ok_str v "h" ltac:(lia)), (group_within_str limit v "h" Hv' Hl).
    reflexivity.
  - cbn [canonical_all canonical]. rewrite !append_nil, string_app_nil_r.
    apply unit_part; [lia | reflexivity].
  - exact Hrest.
  - unfold duration_value. rewrite (group_value_str v "h" ltac:(lia)).
    cbn [group_value]. change (10 ^ 9) with 1000000000 in *. lia.
  - exists td'. split.
    + cbn [canonical_all canonical] in Hrun.
      rewrite !append_nil, string_app_nil_r in Hrun. exact Hrun.
    + rewrite Htd. unfold duration_value. rewrite (group_value_str v "h" ltac:(lia)).
      cbn [group_value]. lia.
Qed.

Lemma lead_m limit v rest :
  0 <= v < 60 -> (limit = 0 \/ 9 <= limit)%nat -> Forall is_part rest ->
  exists td',
    parse_duration limit (join " " ((str_of_Z v ++ "m")%string :: rest)) = Return (Some td')
    /\ total_seconds td' = 60 * v.
Proof.
  intros Hv Hl Hrest.
  assert (0 <= v < 10 ^ 9) as Hv' by (change (10 ^ 9) with 1000000000; lia).
  destruct (parse_duration_lead limit None None (Some (str_of_Z v, "m"%char)) None rest)
    as (td' & Hrun & Htd).
  - unfold well_formed.
    rewrite (group_ok_str v "m" ltac:(lia)), (group_within_str limit v "m" Hv' Hl).
    reflexivity.
  - cbn [canonical_all canonical]. rewrite !append_nil, string_app_nil_r.
    apply unit_part; [lia | reflexivity].
  - exact Hrest.
  - unfold duration_value. rewrite (group_value_str v "m" ltac:(lia)).
    cbn [group_value]. change (10 ^ 9) with 1000000000 in *. lia.
  - exists td'. split.
    + cbn [canonical_all canonical] in Hrun.
      rewrite !append_nil, string_app_nil_r in Hrun. exact Hrun.
    + rewrite Htd. unfold duration_value. rewrite (group_value_str v "m" ltac:(lia)).
      cbn [group_value]. lia.
Qed.

Lemma lead_s limit v rest :
  0 <= v < 60 -> (limit = 0 \/ 9 <= limit)%nat -> Forall is_part rest ->
  exists td',
    parse_duration limit (join " " ((str_of_Z v ++ "s")%string :: rest)) = Return (Some td')
    /\ total_seconds td' = v.
Proof.
  intros Hv Hl Hrest.
  assert (0 <= v < 10 ^ 9) as Hv' by (change (10 ^ 9) with 1000000000; lia).
  destruct (parse_duration_lead limit None None None (Some (str_of_Z v, "s"%char)) rest)
    as (td' & Hrun & Htd).
  - unfold well_formed.
    rewrite (group_ok_str v "s" ltac:(lia)), (group_within_str limit v "s" Hv' Hl).
    reflexivity.
  - cbn [canonical_all canonical]. rewrite !append_nil, string_app_nil_r.
    apply unit_part; [lia | reflexivity].
  - exact Hrest.
  - unfold duration_value. rewrite (group_value_str v "s" ltac:(lia)).
    cbn [group_value]. change (10 ^ 9) with 1000000000 in *. lia.
  - exists td'. split.
    + cbn [canonical_all canonical] in Hrun.
      rewrite !append_nil, string_app_nil_r in Hrun. exact Hrun.
    + rewrite Htd. unfold duration_value. rewrite (group_value_str v "s" ltac:(lia)).
      cbn [group_value]. lia.
Qed.

End FormatFacts.

(** X22.  [format_timedelta] joins its parts with spaces, and [parse_duration]
    stops reading at the first space: for a duration of whole seconds, not
    negative and below 10^9 days, parsing the formatted text succeeds and gives
    only the first part written, that is the whole days if there are any,
    else the whole hours, else the whole minutes, else the seconds.  The
    result is never longer than the duration formatted. *)
Theorem format_timedelta_reads_back_leading_unit limit td :
  (limit = 0 \/ 9 <= limit)%nat ->
  microseconds td = 0 ->
  0 <= total_seconds td < 86400 * 10 ^ 9 ->
  exists td',
    parse_duration limit (format_timedelta td) = Return (Some td')
    /\ total_seconds td' = leading_seconds (total_seconds td)
    /\ total_seconds td' <= total_seconds td.
Proof.
  intros Hl _ HT. unfold format_timedelta, leading_seconds.
  set (T := total_seconds td) in *. cbv zeta.
  change (10 ^ 9) with 1000000000 in HT.
  assert (0 <= T / 86400 < 10 ^ 9) as Hd.
  { change (10 ^ 9) with 1000000000.
    split; [apply Z.div_pos; lia | apply Z.div_lt_upper_bound; lia]. }
  assert (0 <= T mod 86400 / 3600 < 24) as Hh.
  { pose proof (Z.mod_pos_bound T 86400 ltac:(lia)).
    split; [apply Z.div_pos; lia | apply Z.div_lt_upper_bound; lia]. }
  assert (0 <= T mod 3600 / 60 < 60) as Hm.
  { pose proof (Z.mod_pos_bound T 3600 ltac:(lia)).
    split; [apply Z.div_pos; lia | apply Z.div_lt_upper_bound; lia]. }
  pose proof (Z.mod_pos_bound T 60 ltac:(lia)) as Hs.
  assert (86400 * (T / 86400) <= T) as Ld
    by (pose proof (Z.div_mod T 86400 ltac:(lia));
        pose proof (Z.mod_pos_bound T 86400 ltac:(lia)); lia).
  assert (3600 * (T mod 86400 / 3600) <= T) as Lh
    by (pose proof (Z.div_mod (T mod 86400) 3600 ltac:(lia));
        pose proof (Z.mod_pos_bound (T mod 86400) 3600 ltac:(lia));
        pose proof (Z.mod_le T 86400 ltac:(lia) ltac:(lia)); lia).
  assert (60 * (T mod 3600 / 60) <= T) as Lm
    by (pose proof (Z.div_mod (T mod 3600) 60 ltac:(lia));
        pose proof (Z.mod_pos_bound (T mod 3600) 60 ltac:(lia));
        pose proof (Z.mod_le T 3600 ltac:(lia) ltac:(lia)); lia).
  assert (T mod 60 <= T) as Ls by (apply Z.mod_le; lia).
  assert (forall v u, 0 <= v -> is_part_char u = true ->
                      is_part (str_of_Z v ++ String u "")) as Hpart
    by (intros; now apply unit_part).
  destruct (T / 86400 =? 0) eqn:E1; destruct (T mod 86400 / 3600 =? 0) eqn:E2;
    destruct (T mod 3600 / 60 =? 0) eqn:E3; destruct (T mod 60 =? 0) eqn:E4;
    cbn [app negb orb];
    match goal with
    | |- context [join _ ((str_of_Z ?v ++ "d")%string :: ?rest)] =>
        destruct (lead_d limit v rest) as (td' & Hrun & Htd)
    | |- context [join _ ((str_of_Z ?v ++ "h")%string :: ?rest)] =>
        destruct (lead_h limit v rest) as (td' & Hrun & Htd)
    | |- context [join _ ((str_of_Z ?v ++ "m")%string :: ?rest)] =>
        destruct (lead_m limit v rest) as (td' & Hrun & Htd)
    | |- context [join _ ((str_of_Z ?v ++ "s")%string :: ?rest)] =>
        destruct (lead_s limit v rest) as (td' & Hrun & Htd)
    end;
    try assumption;
    try assumption;
    first [ solve [repeat (apply List.Forall_cons; [apply Hpart; [lia | reflexivity]|]);
                   apply List.Forall_nil]
          | exists td'; split; [exact Hrun | split; lia] ].
Qed.

Lemma format_timedelta_reads_back_leading_unit_witness :
  exists td',
    parse_duration 4300 "1d 2h 30m" = Return (Some td')
    /\ total_seconds td' = 86400
    /\ total_seconds td' <= 95400.
Proof.
  apply (format_timedelta_reads_back_leading_unit 4300
           {| days := 1; seconds := 9000; microseconds := 0 |}).
  - right. apply Nat.leb_le. reflexivity.
  - reflexivity.
  - unfold total_seconds. cbn [days seconds]. change (10 ^ 9) with 1000000000. lia.
Defined.

(** ** [time_since] *)

Section TimeSinceFacts.

Lemma datetime_sub_future now dt :
  now < dt -> days (datetime_sub now dt) < 0.
Proof.
  intros H. unfold datetime_sub. cbn [days].
  apply Z.div_lt_upper_bound; lia.
Qed.

Lemma datetime_sub_same_day now e :
  0 <= e < microseconds_per_day ->
  days (datetime_sub now (now - e)) = 0
  /\ seconds (datetime_sub now (now - e)) = e / 1000000.
Proof.
  unfold microseconds_per_day. intros He. unfold datetime_sub. cbn [days seconds].
  replace (now - (now - e)) with e by lia.
  now rewrite Z.div_small, Z.mod_small by lia.
Qed.

End TimeSinceFacts.

(** X23.  [time_since] never reports days for a moment that lies ahead of
    the clock: the difference has negative days, so the text is made from
    its seconds alone, which count up from the previous midnight of the
    difference.  The moment reads as if it lay less than a day in the past:
    up to an hour ahead reads [23 hours ago]. *)
Theorem time_since_future_wraps now dt :
  now < dt ->
  time_since now dt
  = time_since now (now - (now - dt) mod microseconds_per_day)
  /\ (dt - now <= 3600000000 -> time_since now dt = "23 hours ago"%string).
Proof.
  intros Hahead.
  pose proof (datetime_sub_future now dt Hahead) as Hneg.
  pose proof (Z.mod_pos_bound (now - dt) microseconds_per_day ltac:(reflexivity)) as He.
  destruct (datetime_sub_same_day now _ He) as [Hd Hs].
  assert (seconds (datetime_sub now dt)
          = (now - dt) mod microseconds_per_day / 1000000) as Hsec by reflexivity.
  split.
  - unfold time_since. cbv zeta. rewrite Hd, Hs, Hsec.
    destruct (Z.gtb_spec (days (datetime_sub now dt)) 0); [lia | reflexivity].
  - intros Hnear. unfold time_since. cbv zeta. rewrite Hsec.
    destruct (Z.gtb_spec (days (datetime_sub now dt)) 0); [lia|].
    assert ((now - dt) mod microseconds_per_day = now - dt + 86400000000) as ->.
    { symmetry. apply Z.mod_unique_pos with (q := -1);
        unfold microseconds_per_day; lia. }
    assert ((now - dt + 86400000000) / 1000000 / 3600 = 23) as ->.
    { rewrite Z.div_div by lia. symmetry.
      apply (Z.div_unique _ _ 23 (now - dt + 86400000000 - 23 * 3600000000)); lia. }
    reflexivity.
Qed.

Lemma time_since_future_wraps_witness :
  time_since 1000000 2000000 = "23 hours ago"%string.
Proof.
  apply (proj2 (time_since_future_wraps 1000000 2000000 ltac:(lia))). lia.
Defined.

(** ** [update_server_config] *)

Section ServerConfigFacts.

(** The [for] loop in closed form. *)
Lemma loop_run kwargs set_parts values (j : nat) :
  fold_left loop_body kwargs (set_parts, values, Z.of_nat j + 2)
  = (set_parts ++ assignments_from j (kept kwargs),
     values ++ map snd (kept kwargs),
     Z.of_nat (j + List.length (kept kwargs)) + 2).
Proof.
  revert set_parts values j.
  induction kwargs as [|[field value] kwargs IH]; intros set_parts values j.
  - cbn. rewrite !app_nil_r. do 2 f_equal. lia.
  - cbn [fold_left loop_body kept List.filter fst].
    fold (kept kwargs).
    destruct (is_valid_field field).
    + replace (Z.of_nat j + 2 + 1) with (Z.of_nat (S j) + 2) by lia.
      rewrite IH. cbn [assignments_from map snd List.length]. unfold assignment.
      cbn [fst]. rewrite <- !app_assoc. cbn [app]. do 2 f_equal. lia.
    + apply IH.
Qed.

Lemma range_from_one (n : nat) :
  range 1 (Z.of_nat n + 1) 1 = Return (map (fun k => Z.of_nat (S k)) (seq 0 n)).
Proof.
  unfold range, range_length. cbn [Z.eqb Z.gtb Z.compare].
  destruct (Z.ltb_spec 1 (Z.of_nat n + 1)) as [Hn | Hn].
  - replace ((Z.of_nat n + 1 - 1 + 1 - 1) / 1) with (Z.of_nat n)
      by (rewrite Z.div_1_r; lia).
    rewrite Nat2Z.id. f_equal. apply map_ext. intros k. lia.
  - destruct n; [reflexivity | lia].
Qed.

Lemma assignments_length j kws :
  List.length (assignments_from j kws) = List.length kws.
Proof.
  revert j. induction kws as [|kw kws IH]; intros j; [reflexivity|].
  cbn [assignments_from List.length]. now rewrite IH.
Qed.

Lemma assignments_lookup kws j0 j kw :
  kws !! j = Some kw -> assignments_from j0 kws !! j = Some (assignment (j0 + j) kw).
Proof.
  revert j0 j. induction kws as [|k kws IH]; intros j0 j H; [discriminate|].
  destruct j as [|j]; cbn [assignments_from].
  - injection H as ->. now rewrite Nat.add_0_r.
  - change (kws !! j = Some kw) in H.
    change (assignments_from (S j0) kws !! j = Some (assignment (j0 + S j) kw)).
    rewrite (IH (S j0) j H). do 2 f_equal. lia.
Qed.

Lemma placeholders_length n : List.length (placeholders n) = n.
Proof. unfold placeholders. now rewrite length_map, length_seq. Qed.

(** What [update_server_config] does, in terms of the keywords it keeps. *)
Lemma update_server_config_run guild_id kwargs :
  update_server_config guild_id kwargs
  = match kept kwargs with
    | [] => Return None
    | _ =>
        Return (Some (statement_text (map fst kwargs)
                        (placeholders (S (List.length (kept kwargs))))
                        (assignments_from 0 (kept kwargs)),
                      IntArg guild_id :: map snd (kept kwargs)))
    end.
Proof.
  unfold update_server_config.
  change 2 with (Z.of_nat 0 + 2). rewrite loop_run. cbn [app].
  destruct (kept kwargs) as [|kw kws] eqn:E; [reflexivity|].
  cbn [assignments_from].
  replace (Z.of_nat (List.length (IntArg guild_id :: map snd (kw :: kws))) + 1)
    with (Z.of_nat (S (List.length (kw :: kws))) + 1)
    by (cbn [List.length]; now rewrite length_map).
  rewrite range_from_one. cbn [bind]. unfold placeholders.
  now rewrite map_map.
Qed.

Lemma kept_all kwargs :
  List.length (kept kwargs) = List.length kwargs
  <-> forallb (fun kw => is_valid_field (fst kw)) kwargs = true.
Proof.
  unfold kept. induction kwargs as [|kw kwargs IH]; [now cbn|].
  cbn [List.filter forallb].
  pose proof (List.filter_length_le (fun kw => is_valid_field (fst kw)) kwargs) as Hle.
  destruct (is_valid_field (fst kw)); cbn [List.length andb].
  - rewrite <- IH. split; lia.
  - split; [lia | discriminate].
Qed.

End ServerConfigFacts.

(** X24.  When at least one keyword names a configuration field,
    [update_server_config] executes one statement.  It passes the guild
    identifier and then the value of each such keyword, in order; the
    [VALUES] list has one placeholder per argument; and the [j]-th assignment
    of the [ON CONFLICT] clause sets the [j]-th such field from the
    placeholder numbered [j + 2], which is the position of that keyword's
    value among the arguments. *)
Theorem update_server_config_assignments_match_values guild_id kwargs :
  kept kwargs <> [] ->
  exists set_parts values,
    update_server_config guild_id kwargs
    = Return (Some (statement_text (map fst kwargs)
                      (placeholders (List.length values)) set_parts, values))
    /\ values = IntArg guild_id :: map snd (kept kwargs)
    /\ List.length set_parts = List.length (kept kwargs)
    /\ forall j kw, kept kwargs !! j = Some kw ->
         set_parts !! j = Some (fst kw ++ " = $" ++ str_of_Z (Z.of_nat j + 2))%string
         /\ values !! (S j) = Some (snd kw).
Proof.
  intros Hkept.
  exists (assignments_from 0 (kept kwargs)), (IntArg guild_id :: map snd (kept kwargs)).
  split; [|split; [reflexivity | split; [apply assignments_length|]]].
  - rewrite update_server_config_run.
    destruct (kept kwargs) as [|kw kws]; [congruence|].
    cbn [List.length]. now rewrite length_map.
  - intros j kw Hj. split.
    + now rewrite (assignments_lookup _ 0 j kw Hj).
    + cbn [lookup list_lookup]. change (map snd (kept kwargs) !! j = Some (snd kw)).
      rewrite list_lookup_fmap_Some_2 with (x := kw); [reflexivity | exact Hj].
Qed.

Lemma update_server_config_assignments_match_values_witness :
  exists set_parts values,
    update_server_config 77 [("colour", TextArg "red"); ("log_channel_id", IntArg 5)]
    = Return (Some (statement_text ["colour"; "log_channel_id"]
                      (placeholders (List.length values)) set_parts, values))
    /\ values = [IntArg 77; IntArg 5]
    /\ List.length set_parts = 1%nat
    /\ forall j kw, [("log_channel_id", IntArg 5)] !! j = Some kw ->
         set_parts !! j = Some (fst kw ++ " = $" ++ str_of_Z (Z.of_nat j + 2))%string
         /\ values !! (S j) = Some (snd kw).
Proof.
  apply (update_server_config_assignments_match_values 77
           [("colour", TextArg "red"); ("log_channel_id", IntArg 5)]).
  discriminate.
Defined.

(** X25.  [update_server_config] never raises while building its
    statement.  With no valid keyword it returns without executing
    anything.  With at least one it executes a statement whose [INSERT]
    names every keyword given, valid or not, while a placeholder and a value
    are made only for the valid ones: the statement names as many columns as
    it passes values exactly when every keyword is a configuration field. *)
Theorem update_server_config_names_unknown_keywords guild_id kwargs :
  match kept kwargs with
  | [] => update_server_config guild_id kwargs = Return None
  | _ :: _ =>
      exists set_parts values,
        update_server_config guild_id kwargs
        = Return (Some (statement_text (map fst kwargs)
                          (placeholders (List.length values)) set_parts, values))
        /\ values = IntArg guild_id :: map snd (kept kwargs)
        /\ (List.length ("guild_id"%string :: map fst kwargs) = List.length values
            <-> forallb (fun kw => is_valid_field (fst kw)) kwargs = true)
  end.
Proof.
  rewrite update_server_config_run.
  destruct (kept kwargs) as [|kw kws] eqn:E; [reflexivity|].
  exists (assignments_from 0 (kw :: kws)), (IntArg guild_id :: map snd (kw :: kws)).
  split; [|split; [reflexivity|]].
  - cbn [List.length]. now rewrite length_map.
  - rewrite <- kept_all, E. cbn [List.length]. rewrite !length_map.
    cbn [List.length]. split; lia.
Qed.
